(** * net/lwip/wget.c: the HTTP download client of U-Boot's lwIP network stack

    A shallow embedding of [parse_url], [parse_legacy_arg], [httpc_recv_cb],
    [httpc_result_cb], [wget_loop] and [wget_validate_uri], and the
    properties of the download client stated over it. *)

From Stdlib Require Import ZArith Lia Ascii String.
From stdpp Require Import base option list strings gmap.

(** ** C strings and pointers

    A C string is modelled by the list of its characters before the
    terminating NUL.  A pointer into a string is an offset into that list;
    the offset [length s] designates the terminator. *)

Definition cstring := list ascii.

Definition cstr (s : string) : cstring := list_ascii_of_string s.

Definition NUL : ascii := Ascii.zero.

(** [*(s + i)]: the character at offset [i]; the terminator past the end. *)
Definition char_at (s : cstring) (i : nat) : ascii := nth i s NUL.

Definition char_code (c : ascii) : Z := Z.of_nat (nat_of_ascii c).

(** [strlen]. *)
Definition strlen (s : cstring) : nat := length s.

(** [strchr(s, c)] for [c] other than NUL: the offset of the first [c]. *)
Fixpoint strchr (s : cstring) (c : ascii) : option nat :=
  match s with
  | [] => None
  | a :: s' => if Ascii.eqb a c then Some 0 else S <$> strchr s' c
  end.

(** Whether [s] starts with the characters of [pat]. *)
Fixpoint starts_with (pat s : cstring) : bool :=
  match pat, s with
  | [], _ => true
  | _ :: _, [] => false
  | a :: pat', b :: s' => Ascii.eqb a b && starts_with pat' s'
  end.

(** [strstr(s, pat)]: the offset of the first occurrence of [pat] in [s]. *)
Fixpoint strstr (s pat : cstring) : option nat :=
  if starts_with pat s then Some 0
  else match s with
       | [] => None
       | _ :: s' => S <$> strstr s' pat
       end.

(** [strncmp(a, b, n)]: the difference of the first differing characters
    among the first [n], 0 when there is none. *)
Fixpoint strncmp (a b : cstring) (n : nat) {struct n} : Z :=
  match n with
  | 0 => 0
  | S n' =>
      match a, b with
      | [], [] => 0
      | [], cb :: _ => (- char_code cb)%Z
      | ca :: _, [] => char_code ca
      | ca :: a', cb :: b' =>
          if Ascii.eqb ca cb then strncmp a' b' n'
          else (char_code ca - char_code cb)%Z
      end
  end.

(** ** Machine integers *)

(** [ulong] and [long] are taken at 64 bits (the LP64 targets). *)
Definition BITS_PER_LONG : Z := 64.

Definition wrap_ulong (z : Z) : Z := (z mod 2 ^ BITS_PER_LONG)%Z.

(** The conversion of an [ulong] value to [long]. *)
Definition to_long (z : Z) : Z :=
  let u := wrap_ulong z in
  if (u <? 2 ^ (BITS_PER_LONG - 1))%Z then u else (u - 2 ^ BITS_PER_LONG)%Z.

(** The cast [(u16)]. *)
Definition to_u16 (z : Z) : Z := (z mod 65536)%Z.

(** ** Number parsing *)

Definition is_digit (c : ascii) : bool :=
  (48 <=? nat_of_ascii c) && (nat_of_ascii c <=? 57).

Definition digit_value (c : ascii) : Z := (char_code c - 48)%Z.

(** The digit loop: accumulates in an [ulong] and counts the characters
    consumed. *)
Fixpoint strtoul_digits (s : cstring) (acc : Z) : Z * nat :=
  match s with
  | c :: s' =>
      if is_digit c then
        let '(v, n) := strtoul_digits s' (wrap_ulong (acc * 10 + digit_value c)) in
        (v, S n)
      else (acc, 0)
  | [] => (acc, 0)
  end.

(** Modelled from the spec: [simple_strtol(cp, &endp, 10)] (lib/strto.c is
    not part of this file).  It parses the decimal digits at [cp] as a
    number, returns it as a [long], and leaves [endp] after the digits
    consumed: the result pairs the value with the number of characters
    consumed. *)
Definition simple_strtol (s : cstring) : Z * nat :=
  let '(v, n) := strtoul_digits s 0 in (to_long v, n).

(** ** The URL parser *)

Definition SERVER_NAME_SIZE : nat := 200.
Definition HTTP_PORT_DEFAULT : Z := 80.
Definition EINVAL : Z := 22.

Inductive result (E A : Type) : Type :=
  | Ok (a : A)
  | Err (e : E).
Arguments Ok {E A} a.
Arguments Err {E A} e.

(** The return sites of [parse_url] that fail; every one returns [-EINVAL],
    the first after logging "only http:// is supported". *)
Inductive parse_url_error : Type :=
  | Unsupported_scheme
  | No_host_delimiter
  | Host_too_long
  | Port_not_followed_by_slash
  | Port_out_of_range
  | Path_missing.

(** What [parse_url] stores through its out parameters: the host copied to
    the caller's buffer, the port, and the path as a pointer into [url]. *)
Record parsed_url : Type := Parsed {
  host : cstring;
  port : Z;
  path : nat
}.

Definition parse_url (url : cstring) : result parse_url_error parsed_url :=
  match strstr url (cstr "http://") with
  | None => Err Unsupported_scheme
  | Some p0 =>
      let p := p0 + strlen (cstr "http://") in
      let pp_opt :=
        match strchr (drop p url) ":" with
        | Some k => Some (p + k)
        | None => (λ k, p + k) <$> strchr (drop p url) "/"
        end in
      match pp_opt with
      | None => Err No_host_delimiter
      | Some pp =>
          if bool_decide (p + SERVER_NAME_SIZE ≤ pp) then Err Host_too_long
          else
            let host := take (pp - p) (drop p url) in
            if Ascii.eqb (char_at url pp) ":" then
              let p1 := pp + 1 in
              let '(lport, n) := simple_strtol (drop p1 url) in
              let pp1 := p1 + n in
              if negb (Ascii.eqb (char_at url pp1) "/") then
                Err Port_not_followed_by_slash
              else if (65535 <? lport)%Z then Err Port_out_of_range
              else if negb (Ascii.eqb (char_at url pp1) "/") then
                Err Path_missing
              else Ok (Parsed host (to_u16 lport) pp1)
            else if negb (Ascii.eqb (char_at url pp) "/") then Err Path_missing
            else Ok (Parsed host HTTP_PORT_DEFAULT pp)
      end
  end.

(** The [int] that [parse_url] returns. *)
Definition parse_url_ret (r : result parse_url_error parsed_url) : Z :=
  match r with
  | Ok _ => 0
  | Err _ => (- EINVAL)%Z
  end.

(** The string a path pointer designates. *)
Definition path_string (url : cstring) (r : parsed_url) : cstring :=
  drop (path r) url.

(** ** Character buffers *)

(** A [char] array is the list of its cells; a store at an offset replaces
    the cells it covers.  The callers below keep every store within the
    array. *)
Definition store (buf : list ascii) (off : nat) (bs : list ascii) : list ascii :=
  take off buf ++ bs ++ drop (off + length bs) buf.

(** The C string an array holds: its cells up to the first NUL. *)
Fixpoint c_str (buf : list ascii) : cstring :=
  match buf with
  | [] => []
  | a :: buf' => if Ascii.eqb a NUL then [] else a :: c_str buf'
  end.

(** [snprintf(buf + off, size, "%s", src)]: stores at most [size - 1]
    characters of [src] and a NUL (nothing when [size] is 0), and returns
    the length of [src]. *)
Definition snprintf_s (buf : list ascii) (off size : nat) (src : cstring)
  : list ascii * nat :=
  (match size with
   | 0 => buf
   | S k => store buf off (take k src ++ [NUL])
   end, strlen src).

(** [strncpy(buf + off, src, n)]: stores [n] characters, those of [src] and
    then NULs when [src] is shorter. *)
Definition strncpy (buf : list ascii) (off : nat) (src : cstring) (n : nat)
  : list ascii :=
  store buf off (take n src ++ replicate (n - length src) NUL).

(** ** The legacy argument normalizer *)

(** The environment variables: [env_get(name)] is the lookup [env !! name]. *)
Definition env_get (env : gmap string cstring) (name : string) : option cstring :=
  env !! name.

(** [parse_legacy_arg(arg, nurl, rem)] returns its [int] and the array
    [nurl] as it leaves it.  The message logged when no server is set is
    left out. *)
Definition parse_legacy_arg (env : gmap string cstring) (arg : cstring)
    (nurl : list ascii) (rem : nat) : Z * list ascii :=
  let p := 0 in
  let col := strchr arg ":" in
  if bool_decide (strstr arg (cstr "http") = Some 0) then
    let '(nurl, n) := snprintf_s nurl 0 rem arg in
    if bool_decide (rem < n) then ((-1)%Z, nurl) else (0%Z, nurl)
  else
    let '(nurl, n) := snprintf_s nurl p rem (cstr "http://") in
    if bool_decide (rem < n) then ((-1)%Z, nurl)
    else
      let p := p + n in
      let rem := rem - n in
      let choice :=
        match col with
        | Some c => Some (c, arg, drop (c + 1) arg)
        | None =>
            let env_val :=
              match env_get env "httpserverip" with
              | Some v => Some v
              | None => env_get env "serverip"
              end in
            match env_val with
            | None => None
            | Some v => Some (strlen v, v, arg)
            end
        end in
      match choice with
      | None => ((-1)%Z, nurl)
      | Some (n, server, path) =>
          if bool_decide (rem < n) then ((-1)%Z, nurl)
          else
            let nurl := strncpy nurl p server n in
            let p := p + n in
            let rem := rem - n in
            if bool_decide (rem < 1) then ((-1)%Z, nurl)
            else
              let nurl := store nurl p ["/"%char] in
              let p := p + 1 in
              let rem := rem - 1 in
              let n := strlen path in
              if bool_decide (rem < n) then ((-1)%Z, nurl)
              else
                let nurl := strncpy nurl p path n in
                let p := p + n in
                let rem := rem - n in
                if bool_decide (rem < 1) then ((-1)%Z, nurl)
                else (0%Z, store nurl p [NUL])
      end.

(** ** The URI validator *)

(** [strpbrk(s, ct)]: the offset of the first character of [s] that occurs
    in [ct]. *)
Fixpoint strpbrk (s ct : cstring) : option nat :=
  match s with
  | [] => None
  | a :: s' =>
      if existsb (Ascii.eqb a) ct then Some 0 else S <$> strpbrk s' ct
  end.

(** [strsep(&s, ct)]: cuts [s] at its first delimiter; the token returned
    and the new value of [s], the rest after the delimiter or NULL. *)
Definition strsep (s ct : cstring) : cstring * option cstring :=
  match strpbrk s ct with
  | Some k => (take k s, Some (drop (S k) s))
  | None => (s, None)
  end.

(** [strdup(s)]: a copy of [s], or NULL when the allocation fails. *)
Definition strdup (malloc_ok : bool) (s : cstring) : option cstring :=
  if malloc_ok then Some s else None.

(** [strchr(s, c) != NULL]. *)
Definition has_char (s : cstring) (c : ascii) : bool :=
  match strchr s c with
  | Some _ => true
  | None => false
  end.

(** [malloc_ok] tells whether the allocation of [strdup] succeeds.  The
    messages logged with each rejection are left out. *)
Definition wget_validate_uri (malloc_ok : bool) (uri : cstring) : bool :=
  if existsb (λ c, has_char uri (ascii_of_nat c)) (seq 1 32) then false
  else if has_char uri (ascii_of_nat 127) then false
  else if negb (strncmp uri (cstr "http://") 7 =? 0)%Z then false
  else
    match strdup malloc_ok uri with
    | None => false
    | Some str_copy =>
        let s := drop (strlen (cstr "http://")) str_copy in
        let '(authority, s) := strsep s (cstr "/") in
        match s with
        | None => false
        | Some _ =>
            match strchr authority "@" with
            | Some _ => false
            | None => true
            end
        end
    end.

(** ** The transfer context and the world around it *)

Definition PROGRESS_PRINT_STEP_BYTES : Z := 100 * 1024.

Inductive done_state : Type :=
  | NOT_DONE
  | SUCCESS
  | FAILURE.

#[global] Instance done_state_eq_dec : EqDecision done_state.
Proof. solve_decision. Defined.

(** [struct wget_ctx]; [ctx_path] is the string the [path] pointer
    designates. *)
Record wget_ctx : Type := Wget_ctx {
  ctx_path : cstring;
  ctx_daddr : Z;
  ctx_saved_daddr : Z;
  ctx_size : Z;
  ctx_prevsize : Z;
  ctx_start_time : Z;
  ctx_done : done_state
}.

(** The calls the client makes to its collaborators, in the order it makes
    them. *)
Inductive event : Type :=
  | Log_client_error (httpc_result : Z)
  | Log_server_error (srv_res : Z)
  | Log_env_error
  | Print_hash
  | Print_newline
  | Print_transferred (rx_content_len elapsed : Z)
  | Print_size (size : Z)
  | Print_bytes (size : Z)
  | Efi_set_bootdev (path : cstring) (addr len : Z)
  | Env_set_hex (name : string) (value : Z)
  | Altcp_recved (len : Z)
  | Pbuf_free
  | Net_lwip_new_netif
  | Httpc_get_file_dns (server : cstring) (port : Z) (path : cstring)
  | Net_lwip_rx
  | Sys_check_timeouts
  | Ctrlc
  | Net_lwip_remove_netif.

(** The context, the memory the download is written to, and the calls made
    so far. *)
Record state : Type := State {
  ctx : wget_ctx;
  mem : gmap Z ascii;
  trace : list event
}.

Definition emit (e : event) (st : state) : state :=
  State (ctx st) (mem st) (trace st ++ [e]).

Definition set_ctx (c : wget_ctx) (st : state) : state :=
  State c (mem st) (trace st).

Definition set_done (d : done_state) (st : state) : state :=
  let c := ctx st in
  set_ctx (Wget_ctx (ctx_path c) (ctx_daddr c) (ctx_saved_daddr c) (ctx_size c)
             (ctx_prevsize c) (ctx_start_time c) d) st.

(** [memcpy((void * )dst, bs, len)] into the memory. *)
Fixpoint memcpy (m : gmap Z ascii) (dst : Z) (bs : list ascii) : gmap Z ascii :=
  match bs with
  | [] => m
  | b :: bs' => memcpy (<[dst := b]> m) (dst + 1) bs'
  end.

(** ** The response sink *)

Definition ERR_OK : Z := 0.
Definition ERR_BUF : Z := -2.

(** A [struct pbuf *] is the chain of the buffers it links, NULL the empty
    chain; a buffer is its payload, [len] the length of it. *)
Definition pbuf := list (list ascii).

Definition pbuf_len (payload : list ascii) : Z := Z.of_nat (length payload).

Definition tot_len (p : pbuf) : Z := Z.of_nat (length (concat p)).

(** The body of the loop over the chain. *)
Definition recv_buf (st : state) (payload : list ascii) : state :=
  let c := ctx st in
  let m := memcpy (mem st) (ctx_daddr c) payload in
  let daddr := wrap_ulong (ctx_daddr c + pbuf_len payload) in
  let size := wrap_ulong (ctx_size c + pbuf_len payload) in
  if (PROGRESS_PRINT_STEP_BYTES <? wrap_ulong (size - ctx_prevsize c))%Z then
    State (Wget_ctx (ctx_path c) daddr (ctx_saved_daddr c) size size
             (ctx_start_time c) (ctx_done c))
          m (trace st ++ [Print_hash])
  else
    State (Wget_ctx (ctx_path c) daddr (ctx_saved_daddr c) size (ctx_prevsize c)
             (ctx_start_time c) (ctx_done c))
          m (trace st).

(** [timer] is what [get_timer(0)] reads during the call. *)
Definition httpc_recv_cb (timer : Z) (p : pbuf) (st : state) : Z * state :=
  match p with
  | [] => (ERR_BUF, st)
  | _ :: _ =>
      let c := ctx st in
      let st :=
        if (ctx_start_time c =? 0)%Z then
          set_ctx (Wget_ctx (ctx_path c) (ctx_daddr c) (ctx_saved_daddr c)
                     (ctx_size c) (ctx_prevsize c) timer (ctx_done c)) st
        else st in
      let st := fold_left recv_buf p st in
      (ERR_OK, emit Pbuf_free (emit (Altcp_recved (tot_len p)) st))
  end.

(** ** The result finalizer *)

Definition HTTPC_RESULT_OK : Z := 0.

(** Modelled from the spec: [get_timer(base)] (lib/time.c is not part of
    this file) is the time elapsed since [base], now − base, as an
    [ulong]; [now] is the timer when it is called. *)
Definition get_timer (now base : Z) : Z := wrap_ulong (now - base).

(** What the collaborators answer during one call of [httpc_result_cb]:
    the timer, and the values [env_set_hex] returns for "filesize" and for
    "fileaddr". *)
Record result_oracle : Type := Result_oracle {
  timer_now : Z;
  filesize_rc : Z;
  fileaddr_rc : Z
}.

(** The throughput handed to [print_size]. *)
Definition throughput (rx_content_len elapsed : Z) : Z :=
  wrap_ulong (rx_content_len / elapsed * 1000).

Definition httpc_result_cb (o : result_oracle)
    (httpc_result rx_content_len srv_res : Z) (st : state) : state :=
  if negb (httpc_result =? HTTPC_RESULT_OK)%Z then
    set_done FAILURE (emit (Log_client_error httpc_result) st)
  else if negb (srv_res =? 200)%Z then
    set_done FAILURE (emit (Log_server_error srv_res) st)
  else
    let elapsed := get_timer (timer_now o) (ctx_start_time (ctx st)) in
    let elapsed := if (elapsed =? 0)%Z then 1%Z else elapsed in
    let st :=
      if (PROGRESS_PRINT_STEP_BYTES <? rx_content_len)%Z
      then emit Print_newline st else st in
    let st := emit (Print_transferred rx_content_len elapsed) st in
    let st := emit (Print_size (throughput rx_content_len elapsed)) st in
    let st := emit (Print_bytes (ctx_size (ctx st))) st in
    let st :=
      emit (Efi_set_bootdev (ctx_path (ctx st)) (ctx_saved_daddr (ctx st))
              rx_content_len) st in
    let st := emit (Env_set_hex "filesize" rx_content_len) st in
    if negb (filesize_rc o =? 0)%Z then set_done FAILURE (emit Log_env_error st)
    else
      let st := emit (Env_set_hex "fileaddr" (ctx_saved_daddr (ctx st))) st in
      if negb (fileaddr_rc o =? 0)%Z then set_done FAILURE (emit Log_env_error st)
      else set_done SUCCESS st.

(** ** The download driver *)

Definition CMD_RET_SUCCESS : Z := 0.
Definition CMD_RET_FAILURE : Z := 1.
Definition CMD_RET_USAGE : Z := -1.

(** A callback the protocol engine makes, with what the collaborators
    answer during it. *)
Inductive callback : Type :=
  | Recv_cb (timer : Z) (p : pbuf)
  | Result_cb (o : result_oracle) (httpc_result rx_content_len srv_res : Z).

Definition run_callback (st : state) (cb : callback) : state :=
  match cb with
  | Recv_cb timer p => (httpc_recv_cb timer p st).2
  | Result_cb o httpc_result rx_content_len srv_res =>
      httpc_result_cb o httpc_result rx_content_len srv_res st
  end.

(** One turn of the polling loop as the collaborators shape it: the
    callbacks made inside [net_lwip_rx] and inside [sys_check_timeouts],
    and what [ctrlc] returns. *)
Record poll : Type := Poll {
  rx_callbacks : list callback;
  timeout_callbacks : list callback;
  ctrlc : bool
}.

(** The collaborators during one run of [wget_loop]: whether
    [net_lwip_new_netif] returns an interface, what [httpc_get_file_dns]
    returns, and the turns of the loop.  The callbacks are made from the
    turns of the loop, none from [httpc_get_file_dns] itself. *)
Record environment : Type := Environment {
  netif_created : bool;
  httpc_get_file_dns_rc : Z;
  polls : list poll
}.

(** [while (!ctx.done) { ... }] over the turns the environment describes;
    [None] when the loop is still running after all of them. *)
Fixpoint poll_loop (ps : list poll) (st : state) : option state :=
  match ctx_done (ctx st) with
  | NOT_DONE =>
      match ps with
      | [] => None
      | p :: ps' =>
          let st := fold_left run_callback (rx_callbacks p) (emit Net_lwip_rx st) in
          let st :=
            fold_left run_callback (timeout_callbacks p)
              (emit Sys_check_timeouts st) in
          let st := emit Ctrlc st in
          if ctrlc p then Some st else poll_loop ps' st
      end
  | _ => Some st
  end.

(** [wget_loop(udev, dst_addr, uri)] on the memory [m]: the value returned
    and the final state, [None] when the loop does not exit within the
    turns of the environment. *)
Definition wget_loop (e : environment) (dst_addr : Z) (uri : cstring)
    (m : gmap Z ascii) : option (Z * state) :=
  let st := State (Wget_ctx [] dst_addr dst_addr 0 0 0 NOT_DONE) m [] in
  match parse_url uri with
  | Err _ => Some (CMD_RET_USAGE, st)
  | Ok r =>
      let st := emit Net_lwip_new_netif st in
      if negb (netif_created e) then Some ((-1)%Z, st)
      else
        let c := ctx st in
        let st :=
          set_ctx (Wget_ctx (path_string uri r) (ctx_daddr c) (ctx_saved_daddr c)
                     (ctx_size c) (ctx_prevsize c) (ctx_start_time c)
                     (ctx_done c)) st in
        let st := emit (Httpc_get_file_dns (host r) (port r) (path_string uri r)) st in
        if negb (httpc_get_file_dns_rc e =? 0)%Z then
          Some (CMD_RET_FAILURE, emit Net_lwip_remove_netif st)
        else
          match poll_loop (polls e) st with
          | None => None
          | Some st =>
              let st := emit Net_lwip_remove_netif st in
              match ctx_done (ctx st) with
              | SUCCESS => Some (0%Z, st)
              | _ => Some ((-1)%Z, st)
              end
          end
  end.

(** ** The command *)

(** [wget_with_dns(dst_addr, uri)]: [eth_set_current] and [eth_get_dev]
    choose the device, which the model of [wget_loop] leaves to the
    environment. *)
Definition wget_with_dns (e : environment) (dst_addr : Z) (uri : cstring)
    (m : gmap Z ascii) : option (Z * state) :=
  wget_loop e dst_addr uri m.

(** The capacity of the array [nurl] of [do_wget]. *)
Definition NURL_SIZE : nat := 1024.

(** [do_wget(cmdtp, flag, argc, argv)]: [argv] lists the words of the
    command, the name of the command first, and [argc] is their number.
    [hextoul] (lib/strto.c is not part of this file) is a parameter: for a
    word it gives the number parsed and how many characters it consumed,
    so that [end == argv[1] + strlen(argv[1])] compares that count with the
    length of the word.  [image_load_addr] is the global of that name and
    [nurl] the local array as the call finds it.  The result is the value
    returned with the state the transfer ended in, if one was started;
    [None] when the polling loop does not exit. *)
Definition do_wget (hextoul : cstring → Z * nat) (image_load_addr : Z)
    (env : gmap string cstring) (e : environment) (m : gmap Z ascii)
    (nurl : list ascii) (argv : list cstring) : option (Z * option state) :=
  let argc := length argv in
  if bool_decide (argc < 2 ∨ 3 < argc) then Some (CMD_RET_USAGE, None)
  else
    let '(dst_addr, consumed) := hextoul (nth 1 argv []) in
    let choice :=
      if bool_decide (consumed = strlen (nth 1 argv [])) then
        if bool_decide (argc < 3) then None
        else Some (dst_addr, nth 2 argv [])
      else Some (image_load_addr, nth 1 argv []) in
    match choice with
    | None => Some (CMD_RET_USAGE, None)
    | Some (dst_addr, url) =>
        let '(rc, nurl) := parse_legacy_arg env url nurl NURL_SIZE in
        if negb (rc =? 0)%Z then Some (CMD_RET_FAILURE, None)
        else
          match wget_with_dns e dst_addr (c_str nurl) m with
          | None => None
          | Some (rc, st) =>
              if negb (rc =? 0)%Z then Some (CMD_RET_FAILURE, Some st)
              else Some (CMD_RET_SUCCESS, Some st)
          end
    end.

(** ** The vocabulary of the properties *)

(** The delimiter [parse_url] ends the host at: the first ':' of the text
    after the scheme, and the first '/' only when there is no ':'. *)
Definition host_delimiter (s : cstring) : option nat :=
  match strchr s ":" with
  | Some j => Some j
  | None => strchr s "/"
  end.

(** The number a string of decimal digits denotes, continuing from [acc]. *)
Definition decimal (ds : list ascii) (acc : Z) : Z :=
  fold_left (λ a c, (a * 10 + digit_value c)%Z) ds acc.

(** Where the digits stop. *)
Definition stops (r : cstring) : Prop :=
  match r with
  | [] => True
  | c :: _ => is_digit c = false
  end.

(** The characters the validator refuses: 0x01 to 0x20, and 0x7F. *)
Definition control_char (c : ascii) : Prop :=
  (1 ≤ char_code c ≤ 32)%Z ∨ char_code c = 127%Z.

(** The rejections of the validator in the words of its contract: a
    control character, a missing scheme, no '/' after the authority, or an
    '@' in the authority, the text between the scheme and the first '/'. *)
Definition uri_rejected (uri : cstring) : Prop :=
  (∃ c, c ∈ uri ∧ control_char c)
  ∨ starts_with (cstr "http://") uri = false
  ∨ ("/"%char ∉ drop 7 uri)
  ∨ (∃ authority rest,
       drop 7 uri = authority ++ "/"%char :: rest
       ∧ ("/"%char ∉ authority) ∧ "@"%char ∈ authority).

(** The same test as a boolean. *)
Definition control_charb (c : ascii) : bool :=
  ((1 <=? char_code c)%Z && (char_code c <=? 32)%Z) || (char_code c =? 127)%Z.

(** The code of [parse_legacy_arg] from the first capacity check on, once
    [n], [server] and [path] are chosen. *)
Definition compose (nurl : list ascii) (p rem n : nat) (server path : cstring)
  : Z * list ascii :=
  if bool_decide (rem < n) then ((-1)%Z, nurl)
  else
    let nurl := strncpy nurl p server n in
    let p := p + n in
    let rem := rem - n in
    if bool_decide (rem < 1) then ((-1)%Z, nurl)
    else
      let nurl := store nurl p ["/"%char] in
      let p := p + 1 in
      let rem := rem - 1 in
      let n := strlen path in
      if bool_decide (rem < n) then ((-1)%Z, nurl)
      else
        let nurl := strncpy nurl p path n in
        let p := p + n in
        let rem := rem - n in
        if bool_decide (rem < 1) then ((-1)%Z, nurl)
        else (0%Z, store nurl p [NUL]).

(** The server the legacy syntax falls back to: "httpserverip", then
    "serverip". *)
Definition fallback_host (env : gmap string cstring) : option cstring :=
  match env_get env "httpserverip" with
  | Some v => Some v
  | None => env_get env "serverip"
  end.

(** [parse_legacy_arg] turns [arg] into [url]: it succeeds and leaves [url]
    in the array when [url] and its terminator fit in [rem] cells, and
    fails otherwise. *)
Definition normalizes_to (env : gmap string cstring) (arg : cstring)
    (nurl : list ascii) (rem : nat) (url : cstring) : Prop :=
  (length url < rem →
   ∃ buf, parse_legacy_arg env arg nurl rem = (0%Z, buf)
          ∧ c_str buf = url ∧ length buf = length nurl)
  ∧ (rem ≤ length url → (parse_legacy_arg env arg nurl rem).1 = (-1)%Z).

(** The values of an [ulong]. *)
Definition is_ulong (z : Z) : Prop := (0 ≤ z < 2 ^ BITS_PER_LONG)%Z.

(** [st'] is [st] with the bytes [bs] appended at the write cursor. *)
Definition appended (st st' : state) (bs : list ascii) : Prop :=
  mem st' = memcpy (mem st) (ctx_daddr (ctx st)) bs
  ∧ ctx_daddr (ctx st')
    = wrap_ulong (ctx_daddr (ctx st) + Z.of_nat (length bs))
  ∧ ctx_size (ctx st') = wrap_ulong (ctx_size (ctx st) + Z.of_nat (length bs)).

(** The region of [n] bytes at the write cursor lies in the address space,
    and the byte counter is an [ulong]. *)
Definition room (st : state) (n : nat) : Prop :=
  is_ulong (ctx_daddr (ctx st)) ∧ is_ulong (ctx_size (ctx st))
  ∧ (ctx_daddr (ctx st) + Z.of_nat n ≤ 2 ^ BITS_PER_LONG)%Z.

(** Membership of an event in the trace that a sequence of [emit] builds. *)
Ltac in_trace :=
  unfold emit, set_done, set_ctx; cbn [trace ctx mem];
  rewrite ?elem_of_app, ?list_elem_of_singleton; tauto.

(** The call of [net_lwip_remove_netif]. *)
Definition is_teardown (ev : event) : bool :=
  match ev with
  | Net_lwip_remove_netif => true
  | _ => false
  end.

(** How many times [net_lwip_remove_netif] is called in a trace. *)
Definition teardowns (tr : list event) : nat :=
  length (List.filter is_teardown tr).

(** The call of the finalizer among the callbacks. *)
Definition is_result (cb : callback) : bool :=
  match cb with
  | Result_cb _ _ _ _ => true
  | Recv_cb _ _ => false
  end.

(** Whether the finalizer is called during a turn of the loop. *)
Definition finalizes (p : poll) : bool :=
  existsb is_result (rx_callbacks p) || existsb is_result (timeout_callbacks p).

(** The state after the collaborators of one turn have run. *)
Definition after_turn (p : poll) (st : state) : state :=
  emit Ctrlc
    (fold_left run_callback (timeout_callbacks p)
       (emit Sys_check_timeouts
          (fold_left run_callback (rx_callbacks p) (emit Net_lwip_rx st)))).

(** The state in which the request is initiated. *)
Definition requested (dst_addr : Z) (uri : cstring) (m : gmap Z ascii)
    (r : parsed_url) : state :=
  State (Wget_ctx (path_string uri r) dst_addr dst_addr 0 0 0 NOT_DONE) m
    [Net_lwip_new_netif;
     Httpc_get_file_dns (host r) (port r) (path_string uri r)].

(** What [parse_legacy_arg] guarantees about the array whatever it is
    given: the value returned is 0 or -1, the array keeps its length, its
    cells from [cap] on are untouched, and after a success the string it
    holds ends within the first [cap] cells. *)
Definition kept_within (nurl : list ascii) (cap : nat) (r : Z * list ascii)
  : Prop :=
  (r.1 = 0%Z ∨ r.1 = (-1)%Z)
  ∧ length r.2 = length nurl
  ∧ drop cap r.2 = drop cap nurl
  ∧ (r.1 = 0%Z → length (c_str r.2) < cap).

(** The fields that neither callback writes. *)
Definition same_request (st st' : state) : Prop :=
  ctx_path (ctx st') = ctx_path (ctx st)
  ∧ ctx_saved_daddr (ctx st') = ctx_saved_daddr (ctx st).

(** The calls that set the transfer up and take it down. *)
Definition is_setup (ev : event) : bool :=
  match ev with
  | Net_lwip_new_netif | Httpc_get_file_dns _ _ _ | Net_lwip_remove_netif =>
      true
  | _ => false
  end.

(** The trace of [st'] is that of [st] with calls added that neither set
    the transfer up nor take it down. *)
Definition grows (st st' : state) : Prop :=
  ∃ evs, trace st' = trace st ++ evs ∧ Forall (λ ev, is_setup ev = false) evs.

(** The write cursor is the destination address plus the bytes received,
    and the saved address is the destination address. *)
Definition cursor_inv (dst_addr : Z) (st : state) : Prop :=
  ctx_saved_daddr (ctx st) = dst_addr
  ∧ ctx_daddr (ctx st) = wrap_ulong (dst_addr + ctx_size (ctx st)).

(** The result of a transfer has been published: the boot device with the
    path and the address, "filesize", and "fileaddr" with the address. *)
Definition published (path : cstring) (addr : Z) (tr : list event) : Prop :=
  ∃ len, Efi_set_bootdev path addr len ∈ tr
         ∧ Env_set_hex "filesize" len ∈ tr
         ∧ Env_set_hex "fileaddr" addr ∈ tr.

(** The path and the address are those of the request, and the status is
    SUCCESS only with the result published. *)
Definition published_inv (path : cstring) (addr : Z) (st : state) : Prop :=
  ctx_path (ctx st) = path ∧ ctx_saved_daddr (ctx st) = addr
  ∧ (ctx_done (ctx st) = SUCCESS → published path addr (trace st)).



(** The call that prints a progress mark. *)
Definition is_mark (ev : event) : bool :=
  match ev with
  | Print_hash => true
  | _ => false
  end.

(** How many progress marks a trace holds. *)
Definition marks (tr : list event) : Z :=
  Z.of_nat (length (List.filter is_mark tr)).

(** The bytes received but not yet accounted for by a mark. *)
Definition unmarked (st : state) : Z :=
  (ctx_size (ctx st) - ctx_prevsize (ctx st))%Z.

(** * Properties *)

(** ** The examples of the specification *)

Example parse_url_example :
  parse_url (cstr "http://example.com/a/b")
  = Ok (Parsed (cstr "example.com") 80 18).
Proof. reflexivity. Qed.

Example parse_url_example_port :
  parse_url (cstr "http://h:8080/x") = Ok (Parsed (cstr "h") 8080 13).
Proof. reflexivity. Qed.

Example parse_legacy_arg_host_path :
  parse_legacy_arg ∅ (cstr "host:path/to/file") (replicate 32 "x"%char) 32
  = (0%Z, cstr "http://host/path/to/file" ++ NUL :: replicate 7 "x"%char).
Proof. reflexivity. Qed.

Example parse_legacy_arg_fallback :
  c_str (parse_legacy_arg {[ "serverip"%string := cstr "10.0.0.1" ]}
           (cstr "myfile.img") (replicate 1024 NUL) 1024).2
  = cstr "http://10.0.0.1/myfile.img".
Proof. vm_compute. reflexivity. Qed.

Example wget_validate_uri_empty_path :
  wget_validate_uri true (cstr "http://h/") = true.
Proof. reflexivity. Qed.

(** ** String primitives *)

Lemma char_at_drop (s : cstring) (p k : nat) :
  char_at (drop p s) k = char_at s (p + k).
Proof.
  unfold char_at. rewrite !nth_lookup, lookup_drop. reflexivity.
Qed.

Lemma char_at_app_r (s r : cstring) (k : nat) :
  char_at (s ++ r) (length s + k) = char_at r k.
Proof.
  unfold char_at. rewrite !nth_lookup, lookup_app_r by lia.
  replace (length s + k - length s) with k by lia. reflexivity.
Qed.

Lemma strchr_Some (s : cstring) (c : ascii) (k : nat) :
  strchr s c = Some k →
  k < length s ∧ char_at s k = c ∧ c ∉ take k s.
Proof.
  revert k. induction s as [|a s IH]; intros k H; simpl in H; [discriminate|].
  destruct (Ascii.eqb_spec a c) as [->|Hne].
  - injection H as <-. simpl. repeat split; [lia|]. apply not_elem_of_nil.
  - destruct (strchr s c) as [j|] eqn:Hj; simpl in H; [|discriminate].
    injection H as <-. destruct (IH j eq_refl) as (Hlt & Hc & Hnot).
    simpl. repeat split; [lia|exact Hc|].
    intros Hin. apply elem_of_cons in Hin as [->|Hin]; [congruence|tauto].
Qed.

Lemma strchr_None (s : cstring) (c : ascii) :
  strchr s c = None ↔ c ∉ s.
Proof.
  induction s as [|a s IH]; simpl.
  - split; [intros _; apply not_elem_of_nil|reflexivity].
  - destruct (Ascii.eqb_spec a c) as [->|Hne].
    + split; [discriminate|]. intros H. exfalso. apply H. left.
    + rewrite not_elem_of_cons. destruct (strchr s c); simpl.
      * split; [discriminate|]. intros [_ H]. apply IH in H. discriminate.
      * split; [|reflexivity]. intros _. split; [congruence|]. by apply IH.
Qed.

Lemma strchr_app (s r : cstring) (c : ascii) :
  c ∉ s → strchr (s ++ c :: r) c = Some (length s).
Proof.
  induction s as [|a s IH]; intros H; simpl.
  - by rewrite Ascii.eqb_refl.
  - apply not_elem_of_cons in H as [Hne Hs].
    destruct (Ascii.eqb_spec a c) as [->|_]; [congruence|].
    by rewrite IH.
Qed.

Lemma strchr_app_None (s r : cstring) (c : ascii) :
  c ∉ s → strchr (s ++ r) c = (λ k, length s + k) <$> strchr r c.
Proof.
  induction s as [|a s IH]; intros H; simpl.
  - by destruct (strchr r c).
  - apply not_elem_of_cons in H as [Hne Hs].
    destruct (Ascii.eqb_spec a c) as [->|_]; [congruence|].
    rewrite IH by done. by destruct (strchr r c).
Qed.

Lemma starts_with_app (pat r : cstring) : starts_with pat (pat ++ r) = true.
Proof.
  induction pat as [|a pat IH]; simpl; [done|].
  by rewrite Ascii.eqb_refl, IH.
Qed.

Lemma starts_with_spec (pat s : cstring) :
  starts_with pat s = true ↔ ∃ r, s = pat ++ r.
Proof.
  split.
  - revert s. induction pat as [|a pat IH]; intros s H; simpl in H.
    + by exists s.
    + destruct s as [|b s]; [discriminate|].
      apply andb_true_iff in H as [Hab H].
      apply Ascii.eqb_eq in Hab as ->. destruct (IH _ H) as [r ->]. by exists r.
  - intros [r ->]. apply starts_with_app.
Qed.

Lemma strstr_app (pat r : cstring) : strstr (pat ++ r) pat = Some 0.
Proof.
  destruct (pat ++ r) eqn:E; simpl; rewrite <- ?E, starts_with_app; done.
Qed.

Lemma strstr_Some (s pat : cstring) (p : nat) :
  strstr s pat = Some p → starts_with pat (drop p s) = true ∧ p ≤ length s.
Proof.
  revert p. induction s as [|a s IH]; intros p H; simpl in H.
  - destruct (starts_with pat []) eqn:E; [|discriminate].
    injection H as <-. split; [done|simpl; lia].
  - destruct (starts_with pat (a :: s)) eqn:E.
    + injection H as <-. split; [done|simpl; lia].
    + destruct (strstr s pat) as [j|] eqn:Hj; simpl in H; [|discriminate].
      injection H as <-. destruct (IH j eq_refl). split; [done|simpl; lia].
Qed.

Lemma strstr_zero (s pat : cstring) :
  strstr s pat = Some 0 ↔ starts_with pat s = true.
Proof.
  destruct s as [|a s]; simpl.
  - destruct (starts_with pat []); split; congruence.
  - destruct (starts_with pat (a :: s)); [done|].
    destruct (strstr s pat); simpl; split; congruence.
Qed.

(** The first of two delimiters comes no later than the delimiter
    [parse_url] picks. *)
Lemma strpbrk_two (s : cstring) (a b : ascii) (k : nat) :
  strpbrk s [a; b] = Some k →
  ∃ j, match strchr s a with Some j => Some j | None => strchr s b end = Some j
       ∧ k ≤ j.
Proof.
  revert k. induction s as [|x s IH]; intros k H; simpl in H; [discriminate|].
  simpl. destruct (Ascii.eqb x a) eqn:Ea; simpl in H.
  - injection H as <-. exists 0. split; [done|lia].
  - destruct (Ascii.eqb x b) eqn:Eb; simpl in H.
    + injection H as <-. destruct (strchr s a); simpl; eexists; split; eauto; lia.
    + destruct (strpbrk s [a; b]) as [k'|] eqn:Hk; simpl in H; [|discriminate].
      injection H as <-. destruct (IH k' eq_refl) as (j & Hj & Hle).
      destruct (strchr s a); simpl.
      * injection Hj as ->. eexists; split; eauto; lia.
      * rewrite Hj. simpl. eexists; split; eauto; lia.
Qed.

(** ** The URL parser *)

Lemma host_delimiter_Some (s : cstring) (j : nat) :
  host_delimiter s = Some j →
  j < length s ∧ (char_at s j = ":"%char ∨ char_at s j = "/"%char).
Proof.
  unfold host_delimiter. intros H.
  destruct (strchr s ":") as [i|] eqn:Hc.
  - injection H as ->. apply strchr_Some in Hc. tauto.
  - apply strchr_Some in H. tauto.
Qed.

(** What a successful parse went through. *)
Lemma parse_url_Ok_inv (url : cstring) (r : parsed_url) :
  parse_url url = Ok r →
  ∃ p0 j,
    strstr url (cstr "http://") = Some p0
    ∧ host_delimiter (drop (p0 + 7) url) = Some j
    ∧ j < SERVER_NAME_SIZE
    ∧ host r = take j (drop (p0 + 7) url)
    ∧ length (host r) = j
    ∧ p0 + 7 + j ≤ path r
    ∧ char_at url (path r) = "/"%char.
Proof.
  unfold parse_url. intros H.
  destruct (strstr url (cstr "http://")) as [p0|]; [|discriminate].
  change (strlen (cstr "http://")) with 7 in H.
  exists p0.
  assert (Hd : ∃ j, host_delimiter (drop (p0 + 7) url) = Some j ∧
     match strchr (drop (p0 + 7) url) ":" with
     | Some k => Some (p0 + 7 + k)
     | None => (λ k, p0 + 7 + k) <$> strchr (drop (p0 + 7) url) "/"
     end = Some (p0 + 7 + j)).
  { unfold host_delimiter.
    destruct (strchr (drop (p0 + 7) url) ":") as [j|]; [by exists j|].
    destruct (strchr (drop (p0 + 7) url) "/") as [j|]; [by exists j|].
    discriminate. }
  destruct Hd as (j & Hj & Hpp). rewrite Hpp in H. exists j.
  case_bool_decide as Hlen; [discriminate|].
  replace (p0 + 7 + j - (p0 + 7)) with j in H by lia.
  pose proof (host_delimiter_Some _ _ Hj) as [Hjlt _].
  assert (Hhl : length (take j (drop (p0 + 7) url)) = j)
    by (rewrite length_take; lia).
  destruct (Ascii.eqb (char_at url (p0 + 7 + j)) ":").
  - destruct (simple_strtol (drop (p0 + 7 + j + 1) url)) as [lport n].
    destruct (Ascii.eqb_spec (char_at url (p0 + 7 + j + 1 + n)) "/") as [Hs|];
      simpl in H; [|discriminate].
    destruct (65535 <? lport)%Z; [discriminate|].
    injection H as <-. simpl. repeat split; try done; lia.
  - destruct (Ascii.eqb_spec (char_at url (p0 + 7 + j)) "/") as [Hs|];
      simpl in H; [|discriminate].
    injection H as <-. simpl. repeat split; try done; lia.
Qed.

(** C8. A host of [SERVER_NAME_SIZE] characters or more, counted from the
    scheme to the first ':' or '/', makes [parse_url] fail at the length
    check, before the host is copied; and a parse that succeeds yields a
    host shorter than [SERVER_NAME_SIZE] that holds that text whole. *)
Theorem parse_url_host_capacity (url : cstring) (p0 k : nat) :
  strstr url (cstr "http://") = Some p0 →
  strpbrk (drop (p0 + 7) url) (cstr ":/") = Some k →
  (SERVER_NAME_SIZE ≤ k → parse_url url = Err Host_too_long)
  ∧ (∀ r, parse_url url = Ok r →
          k ≤ length (host r) < SERVER_NAME_SIZE
          ∧ host r = take (length (host r)) (drop (p0 + 7) url)).
Proof.
  intros Hs Hk. change (cstr ":/") with [":"%char; "/"%char] in Hk.
  apply strpbrk_two in Hk as (j & Hj & Hkj).
  fold (host_delimiter (drop (p0 + 7) url)) in Hj. split.
  - intros Hbig. unfold parse_url. rewrite Hs.
    change (strlen (cstr "http://")) with 7.
    unfold host_delimiter in Hj.
    destruct (strchr (drop (p0 + 7) url) ":") as [i|].
    + injection Hj as ->. rewrite bool_decide_true by lia. reflexivity.
    + rewrite Hj. simpl. rewrite bool_decide_true by lia. reflexivity.
  - intros r Hr. apply parse_url_Ok_inv in Hr
      as (p0' & j' & Hs' & Hj' & Hlt & Hh & Hlen & _).
    rewrite Hs in Hs'. injection Hs' as <-.
    rewrite Hj in Hj'. injection Hj' as <-.
    rewrite Hlen. split; [lia|exact Hh].
Qed.

(** A host of 300 characters is refused; the host of
    "http://example.com/a/b" is returned whole. *)
Lemma parse_url_host_capacity_witness :
  parse_url (cstr "http://" ++ replicate 300 "a"%char ++ cstr "/x")
  = Err Host_too_long
  ∧ 11 ≤ length (cstr "example.com") < SERVER_NAME_SIZE.
Proof.
  split.
  - refine (proj1 (parse_url_host_capacity
              (cstr "http://" ++ replicate 300 "a"%char ++ cstr "/x") 0 300 _ _) _).
    + vm_compute. reflexivity.
    + vm_compute. reflexivity.
    + unfold SERVER_NAME_SIZE. lia.
  - refine (proj1 (proj2 (parse_url_host_capacity
              (cstr "http://example.com/a/b") 0 11 _ _)
              (Parsed (cstr "example.com") 80 18) _)).
    + reflexivity.
    + reflexivity.
    + reflexivity.
Defined.

(** The bound is exact: 199 characters are accepted, 200 are refused. *)
Example parse_url_host_boundary :
  parse_url (cstr "http://" ++ replicate 199 "a"%char ++ cstr "/x")
  = Ok (Parsed (replicate 199 "a"%char) 80 206)
  ∧ parse_url (cstr "http://" ++ replicate 200 "a"%char ++ cstr "/x")
    = Err Host_too_long.
Proof. split; vm_compute; reflexivity. Qed.

Lemma strtoul_digits_none (s : cstring) (acc v : Z) :
  strtoul_digits s acc = (v, 0) → v = acc.
Proof.
  destruct s as [|c s]; simpl; [congruence|].
  destruct (is_digit c); [|congruence].
  destruct (strtoul_digits s _). congruence.
Qed.

Lemma simple_strtol_none (s : cstring) (lport : Z) :
  simple_strtol s = (lport, 0) → lport = 0%Z.
Proof.
  unfold simple_strtol. destruct (strtoul_digits s 0) as [v n] eqn:E.
  intros [= <- ->]. apply strtoul_digits_none in E as ->. reflexivity.
Qed.

(** C5, as the code has it. When a ':' ends the host, [parse_url] fails if
    the number parsed exceeds 65535 or if the character after the digits
    consumed is not '/'.  A port without digits is not refused for that:
    with a '/' right after the ':' the parse succeeds and the port is 0. *)
Theorem parse_url_port_checks (url : cstring) (p0 k n : nat) (lport : Z) :
  strstr url (cstr "http://") = Some p0 →
  strchr (drop (p0 + 7) url) ":" = Some k →
  simple_strtol (drop (p0 + 7 + k + 1) url) = (lport, n) →
  ((65535 < lport)%Z ∨ char_at url (p0 + 7 + k + 1 + n) ≠ "/"%char →
   ∃ e, parse_url url = Err e)
  ∧ (k < SERVER_NAME_SIZE → n = 0 → char_at url (p0 + 7 + k + 1) = "/"%char →
     parse_url url = Ok (Parsed (take k (drop (p0 + 7) url)) 0 (p0 + 7 + k + 1))).
Proof.
  intros Hs Hc Hl.
  pose proof (strchr_Some _ _ _ Hc) as (_ & Hat & _).
  rewrite char_at_drop in Hat.
  unfold parse_url. rewrite Hs. change (strlen (cstr "http://")) with 7.
  rewrite Hc. replace (p0 + 7 + k - (p0 + 7)) with k by lia.
  rewrite Hat, Hl. simpl (Ascii.eqb ":" ":"). cbv iota. split.
  - intros Hbad. case_bool_decide; [by eexists|].
    destruct (Ascii.eqb_spec (char_at url (p0 + 7 + k + 1 + n)) "/") as [Hslash|];
      simpl; [|by eexists].
    destruct (Z.ltb_spec 65535 lport); [by eexists|].
    destruct Hbad as [?|?]; [lia|congruence].
  - intros Hk -> Hslash. apply simple_strtol_none in Hl as ->.
    rewrite bool_decide_false by lia.
    replace (p0 + 7 + k + 1 + 0) with (p0 + 7 + k + 1) by lia.
    rewrite Hslash. reflexivity.
Qed.

(** "http://h:99999/x" is refused; "http://h:/x" is parsed with port 0. *)
Lemma parse_url_port_checks_witness :
  (∃ e, parse_url (cstr "http://h:99999/x") = Err e)
  ∧ parse_url (cstr "http://h:/x") = Ok (Parsed (cstr "h") 0 9).
Proof.
  split.
  - refine (proj1 (parse_url_port_checks (cstr "http://h:99999/x") 0 1 5 99999
                     _ _ _) _).
    + reflexivity.
    + reflexivity.
    + vm_compute. reflexivity.
    + left. lia.
  - refine (proj2 (parse_url_port_checks (cstr "http://h:/x") 0 1 0 0
                     _ _ _) _ _ _).
    + reflexivity.
    + reflexivity.
    + vm_compute. reflexivity.
    + unfold SERVER_NAME_SIZE. lia.
    + reflexivity.
    + reflexivity.
Defined.

(** C5 as stated fails: in "http://h:/x" the port parse consumes no digit,
    and [parse_url] succeeds. *)
Lemma parse_url_port_without_digits :
  strchr (drop 7 (cstr "http://h:/x")) ":" = Some 1
  ∧ (simple_strtol (drop 9 (cstr "http://h:/x"))).2 = 0
  ∧ parse_url (cstr "http://h:/x") = Ok (Parsed (cstr "h") 0 9)
  ∧ parse_url_ret (parse_url (cstr "http://h:/x")) = 0%Z.
Proof. repeat split. Qed.

(** C6, at inputs where the code departs from it: the scheme is looked for
    anywhere in the string, so a string that does not begin with "http://"
    but holds it further on is parsed, from that place on. *)
Theorem parse_url_scheme_not_at_start :
  starts_with (cstr "http://") (cstr "https://a/http://h/x") = false
  ∧ parse_url (cstr "https://a/http://h/x") = Ok (Parsed (cstr "h") 80 18)
  ∧ parse_url_ret (parse_url (cstr "https://a/http://h/x")) = 0%Z
  ∧ starts_with (cstr "http://") (cstr "xhttp://h/x") = false
  ∧ parse_url (cstr "xhttp://h/x") = Ok (Parsed (cstr "h") 80 9).
Proof. repeat split. Qed.

(** The scheme error is returned exactly when "http://" occurs nowhere. *)
Lemma parse_url_unsupported_scheme (url : cstring) :
  parse_url url = Err Unsupported_scheme ↔ strstr url (cstr "http://") = None.
Proof.
  unfold parse_url. destruct (strstr url (cstr "http://")) as [p0|]; [|done].
  split; [|discriminate]. intros H. exfalso.
  destruct (match strchr _ ":" with Some k => _ | None => _ end);
    [|discriminate].
  case_bool_decide; [discriminate|].
  destruct (Ascii.eqb _ ":").
  - destruct (simple_strtol _). destruct (negb _); [discriminate|].
    destruct (_ <? _)%Z; discriminate.
  - destruct (negb _); discriminate.
Qed.

(** C1, at inputs where the code departs from it: a ':' in the path of a
    URL without port is taken for the end of the host, so that the URL is
    refused or parsed to another host, port and path. *)
Theorem parse_url_colon_in_path :
  parse_url (cstr "http://h/a:/b") = Ok (Parsed (cstr "h/a") 0 11)
  ∧ path_string (cstr "http://h/a:/b") (Parsed (cstr "h/a") 0 11) = cstr "/b"
  ∧ parse_url (cstr "http://example.com/a:b") = Err Port_not_followed_by_slash.
Proof. repeat split. Qed.

Lemma is_digit_value (c : ascii) :
  is_digit c = true → (0 ≤ digit_value c ≤ 9)%Z.
Proof.
  unfold is_digit, digit_value, char_code. intros H.
  apply andb_true_iff in H as [H1 H2].
  apply Nat.leb_le in H1, H2. lia.
Qed.

Lemma decimal_ge (ds : list ascii) (acc : Z) :
  Forall (λ c, is_digit c = true) ds → (0 ≤ acc)%Z → (acc ≤ decimal ds acc)%Z.
Proof.
  intros Hds. revert acc. induction Hds as [|c ds Hc _ IH]; intros acc Hacc.
  - simpl. lia.
  - simpl. apply is_digit_value in Hc.
    specialize (IH (acc * 10 + digit_value c)%Z). lia.
Qed.

Lemma strtoul_digits_decimal (ds r : cstring) (acc : Z) :
  Forall (λ c, is_digit c = true) ds → stops r →
  (0 ≤ acc)%Z → (decimal ds acc < 2 ^ BITS_PER_LONG)%Z →
  strtoul_digits (ds ++ r) acc = (decimal ds acc, length ds).
Proof.
  intros Hds Hr. revert acc.
  induction Hds as [|c ds Hc Hds IH]; intros acc Hacc Hlt;
    cbn [app strtoul_digits].
  - destruct r as [|c r]; [done|]. cbn [stops strtoul_digits] in *.
    by rewrite Hr.
  - rewrite Hc. pose proof (is_digit_value _ Hc) as Hv.
    simpl in Hlt.
    pose proof (decimal_ge ds (acc * 10 + digit_value c)%Z Hds ltac:(lia)).
    unfold wrap_ulong. rewrite Z.mod_small by lia.
    rewrite IH by lia. reflexivity.
Qed.

Lemma simple_strtol_decimal (ds r : cstring) :
  Forall (λ c, is_digit c = true) ds → stops r →
  (decimal ds 0 < 2 ^ (BITS_PER_LONG - 1))%Z →
  simple_strtol (ds ++ r) = (decimal ds 0, length ds).
Proof.
  intros Hds Hr Hlt. unfold simple_strtol.
  pose proof (decimal_ge ds 0 Hds ltac:(lia)) as Hge.
  assert (2 ^ (BITS_PER_LONG - 1) < 2 ^ BITS_PER_LONG)%Z by (vm_compute; done).
  rewrite strtoul_digits_decimal by (done || lia).
  unfold to_long, wrap_ulong. rewrite Z.mod_small by lia.
  destruct (Z.ltb_spec (decimal ds 0) (2 ^ (BITS_PER_LONG - 1))); [done|lia].
Qed.

Lemma char_at_middle (a b : cstring) (c : ascii) (k : nat) :
  k = length a → char_at (a ++ c :: b) k = c.
Proof.
  intros ->. replace (length a) with (length a + 0) by lia.
  by rewrite char_at_app_r.
Qed.

Lemma drop_prefix (a b : cstring) (k : nat) :
  k = length a → drop k (a ++ b) = b.
Proof. intros ->. apply drop_app_length. Qed.

(** What the code does with the URLs of C1: "http://host:port/path" parses
    to its parts whenever the host holds no ':', is shorter than
    [SERVER_NAME_SIZE], and the digits denote a port up to 65535. *)
Lemma parse_url_with_port (h ds rest : cstring) :
  ":"%char ∉ h → length h < SERVER_NAME_SIZE →
  Forall (λ c, is_digit c = true) ds → (decimal ds 0 ≤ 65535)%Z →
  let url := cstr "http://" ++ h ++ ":"%char :: ds ++ "/"%char :: rest in
  parse_url url = Ok (Parsed h (decimal ds 0) (7 + length h + 1 + length ds))
  ∧ drop (7 + length h + 1 + length ds) url = "/"%char :: rest.
Proof.
  intros Hcolon Hlen Hds Hport url.
  assert (F1 : strstr url (cstr "http://") = Some 0) by apply strstr_app.
  assert (F2 : drop (0 + 7) url = h ++ ":"%char :: ds ++ "/"%char :: rest)
    by reflexivity.
  assert (F3 : strchr (h ++ ":"%char :: ds ++ "/"%char :: rest) ":"
               = Some (length h)) by by apply strchr_app.
  assert (F4 : char_at url (0 + 7 + length h) = ":"%char).
  { unfold url. rewrite app_assoc. apply char_at_middle.
    rewrite length_app. reflexivity. }
  assert (F5 : drop (0 + 7 + length h + 1) url = ds ++ "/"%char :: rest).
  { unfold url. rewrite (cons_middle ":"%char h), !app_assoc, <- app_assoc.
    apply drop_prefix. rewrite !length_app. reflexivity. }
  assert (F6 : simple_strtol (ds ++ "/"%char :: rest)
               = (decimal ds 0, length ds)).
  { apply simple_strtol_decimal; [done|reflexivity|].
    assert (65535 < 2 ^ (BITS_PER_LONG - 1))%Z by (vm_compute; done). lia. }
  assert (F7 : char_at url (0 + 7 + length h + 1 + length ds) = "/"%char).
  { unfold url. rewrite (cons_middle ":"%char h), !app_assoc.
    apply char_at_middle. rewrite !length_app. reflexivity. }
  split.
  - unfold parse_url. rewrite F1. change (strlen (cstr "http://")) with 7.
    rewrite F2, F3, bool_decide_false by lia.
    rewrite F4, F5, F6, F7. simpl (negb _). cbv iota.
    replace (0 + 7 + length h - (0 + 7)) with (length h) by lia.
    rewrite take_app_length.
    destruct (Z.ltb_spec 65535 (decimal ds 0)); [lia|].
    pose proof (decimal_ge ds 0 Hds ltac:(lia)).
    unfold to_u16. rewrite Z.mod_small by lia. reflexivity.
  - replace (7 + length h + 1 + length ds)
      with (0 + 7 + length h + 1 + length ds) by lia.
    rewrite <- drop_drop, F5. apply drop_app_length.
Qed.

(** "http://host/path" parses to the host, port 80 and the path whenever
    the host holds no '/', is shorter than [SERVER_NAME_SIZE], and no ':'
    occurs in the host or in the path. *)
Lemma parse_url_default_port (h rest : cstring) :
  ":"%char ∉ h → "/"%char ∉ h → ":"%char ∉ rest →
  length h < SERVER_NAME_SIZE →
  let url := cstr "http://" ++ h ++ "/"%char :: rest in
  parse_url url = Ok (Parsed h HTTP_PORT_DEFAULT (7 + length h))
  ∧ drop (7 + length h) url = "/"%char :: rest.
Proof.
  intros Hcolon Hslash Hrest Hlen url.
  assert (F1 : strstr url (cstr "http://") = Some 0) by apply strstr_app.
  assert (F2 : drop (0 + 7) url = h ++ "/"%char :: rest) by reflexivity.
  assert (F3 : strchr (h ++ "/"%char :: rest) ":" = None).
  { apply strchr_None. rewrite elem_of_app, elem_of_cons.
    intros [?|[?|?]]; done. }
  assert (F4 : strchr (h ++ "/"%char :: rest) "/" = Some (length h))
    by by apply strchr_app.
  assert (F5 : char_at url (0 + 7 + length h) = "/"%char).
  { unfold url. rewrite app_assoc. apply char_at_middle.
    rewrite length_app. reflexivity. }
  split.
  - unfold parse_url. rewrite F1. change (strlen (cstr "http://")) with 7.
    rewrite F2, F3, F4. cbn [fmap option_fmap option_map].
    rewrite bool_decide_false by (unfold SERVER_NAME_SIZE in *; lia).
    rewrite F5. simpl (Ascii.eqb _ _). cbv iota. simpl (negb _). cbv iota.
    replace (0 + 7 + length h - (0 + 7)) with (length h) by lia.
    rewrite take_app_length. reflexivity.
  - unfold url. rewrite app_assoc. apply drop_prefix.
    rewrite length_app. reflexivity.
Qed.

(** ** The URI validator *)

Lemma char_code_inj (a b : ascii) : char_code a = char_code b → a = b.
Proof.
  unfold char_code. intros H. apply Nat2Z.inj in H.
  rewrite <- (ascii_nat_embedding a), <- (ascii_nat_embedding b). by rewrite H.
Qed.

Lemma has_char_true (s : cstring) (c : ascii) : has_char s c = true ↔ c ∈ s.
Proof.
  unfold has_char. destruct (strchr s c) as [k|] eqn:E.
  - split; [intros _|done]. destruct (decide (c ∈ s)) as [|Hn]; [done|].
    apply strchr_None in Hn. congruence.
  - split; [done|]. intros Hin. by apply strchr_None in E.
Qed.

Lemma has_char_false (s : cstring) (c : ascii) : has_char s c = false ↔ c ∉ s.
Proof.
  rewrite <- has_char_true. destruct (has_char s c); split; congruence.
Qed.

(** The loop over the characters 0x01 to 0x20. *)
Lemma control_loop_true (uri : cstring) :
  existsb (λ c, has_char uri (ascii_of_nat c)) (seq 1 32) = true
  ↔ ∃ c, c ∈ uri ∧ (1 ≤ char_code c ≤ 32)%Z.
Proof.
  rewrite existsb_exists. split.
  - intros (n & Hn & Hc). apply in_seq in Hn. apply has_char_true in Hc.
    exists (ascii_of_nat n). split; [done|].
    unfold char_code. rewrite nat_ascii_embedding by lia. lia.
  - intros (c & Hc & Hr). exists (nat_of_ascii c). unfold char_code in Hr.
    split; [apply in_seq; lia|].
    rewrite ascii_nat_embedding. by apply has_char_true.
Qed.

Lemma del_check_true (uri : cstring) :
  has_char uri (ascii_of_nat 127) = true
  ↔ ∃ c, c ∈ uri ∧ char_code c = 127%Z.
Proof.
  rewrite has_char_true. split.
  - intros H. exists (ascii_of_nat 127). split; [done|reflexivity].
  - intros (c & Hc & Hr).
    replace (ascii_of_nat 127) with c; [done|].
    apply char_code_inj. by rewrite Hr.
Qed.

Lemma strncmp_starts_with (pat s : cstring) :
  NUL ∉ pat →
  strncmp s pat (length pat) = 0%Z ↔ starts_with pat s = true.
Proof.
  revert s. induction pat as [|c pat IH]; intros s Hnul; simpl; [by split|].
  apply not_elem_of_cons in Hnul as [Hc Hpat].
  destruct s as [|a s].
  - split; [|done]. intros H. exfalso. apply Hc. apply char_code_inj.
    change (char_code NUL) with 0%Z. lia.
  - rewrite (Ascii.eqb_sym c a). destruct (Ascii.eqb_spec a c) as [->|Hne]; simpl.
    + by apply IH.
    + split; [|done]. intros H. exfalso. apply Hne, char_code_inj. lia.
Qed.

Lemma strpbrk_single (s : cstring) (c : ascii) : strpbrk s [c] = strchr s c.
Proof.
  induction s as [|a s IH]; simpl; [done|].
  rewrite orb_false_r, IH. reflexivity.
Qed.

Lemma strchr_split (s : cstring) (c : ascii) (k : nat) :
  strchr s c = Some k → s = take k s ++ c :: drop (S k) s ∧ c ∉ take k s.
Proof.
  intros H. apply strchr_Some in H as (Hlt & Hc & Hnot). split; [|done].
  symmetry. apply take_drop_middle.
  destruct (lookup_lt_is_Some_2 s k Hlt) as [x Hx].
  rewrite Hx. f_equal. rewrite <- Hc. symmetry.
  by apply nth_lookup_Some.
Qed.

(** C4, as the code has it. The validator returns false exactly when the
    URI holds a character in 0x01..0x20 or 0x7F, does not begin with
    "http://", has no '/' after the scheme, has an '@' in its authority,
    or when the copy it works on cannot be allocated; otherwise it returns
    true. *)
Theorem wget_validate_uri_false_iff (malloc_ok : bool) (uri : cstring) :
  wget_validate_uri malloc_ok uri = false
  ↔ uri_rejected uri ∨ malloc_ok = false.
Proof.
  unfold wget_validate_uri, uri_rejected, control_char.
  destruct (existsb _ (seq 1 32)) eqn:E1.
  { apply control_loop_true in E1 as (c & Hc & Hr).
    split; [intros _|done]. left. left. exists c. tauto. }
  destruct (has_char uri (ascii_of_nat 127)) eqn:E2.
  { apply del_check_true in E2 as (c & Hc & Hr).
    split; [intros _|done]. left. left. exists c. tauto. }
  assert (Hctl : ¬ ∃ c, c ∈ uri ∧
                   ((1 ≤ char_code c ≤ 32)%Z ∨ char_code c = 127%Z)).
  { intros (c & Hc & [Hr|Hr]).
    - assert (existsb (λ c, has_char uri (ascii_of_nat c)) (seq 1 32) = true)
        by (apply control_loop_true; eauto). congruence.
    - assert (has_char uri (ascii_of_nat 127) = true)
        by (apply del_check_true; eauto). congruence. }
  assert (Hpre : (strncmp uri (cstr "http://") 7 =? 0)%Z
                 = starts_with (cstr "http://") uri).
  { assert (Hnul : NUL ∉ cstr "http://").
    { intros H. change (cstr "http://") with (list_ascii_of_string "http://") in H.
      simpl in H. repeat (apply elem_of_cons in H as [?|H]; [discriminate|]).
      by apply elem_of_nil in H. }
    pose proof (strncmp_starts_with (cstr "http://") uri Hnul) as Hs.
    change (length (cstr "http://")) with 7 in Hs.
    destruct (Z.eqb_spec (strncmp uri (cstr "http://") 7) 0) as [H0|H0];
      destruct (starts_with (cstr "http://") uri); try done.
    - symmetry. by apply Hs.
    - exfalso. by apply H0, Hs. }
  rewrite Hpre. destruct (starts_with (cstr "http://") uri) eqn:E3; simpl.
  2:{ split; [intros _|done]. left. right. by left. }
  destruct malloc_ok; simpl.
  2:{ split; [intros _|done]. by right. }
  change (strlen (cstr "http://")) with 7.
  unfold strsep. change (cstr "/") with ["/"%char]. rewrite strpbrk_single.
  destruct (strchr (drop 7 uri) "/") as [k|] eqn:E4.
  2:{ split; [intros _|done]. left. right. right. left.
      by apply strchr_None. }
  pose proof (strchr_split _ _ _ E4) as [Hsplit Hnot].
  destruct (strchr (take k (drop 7 uri)) "@") as [j|] eqn:E5.
  { split; [intros _|done]. left. right. right. right.
    exists (take k (drop 7 uri)), (drop (S k) (drop 7 uri)).
    split; [done|]. split; [done|].
    apply has_char_true. unfold has_char. by rewrite E5. }
  split; [done|]. intros [[H|[H|[H|H]]]|H]; try done.
  - exfalso. apply H. rewrite Hsplit. set_solver.
  - destruct H as (authority & rest & Heq & Hslash & Hat).
    rewrite Heq in E4, E5. rewrite strchr_app in E4 by done.
    injection E4 as <-. rewrite take_app_length in E5.
    by apply strchr_None in E5.
Qed.

Lemma no_control_char (uri : cstring) :
  forallb (λ c, negb (control_charb c)) uri = true →
  ¬ ∃ c, c ∈ uri ∧ control_char c.
Proof.
  intros H (c & Hc & Hr). rewrite forallb_forall in H.
  apply list_elem_of_In, H in Hc. unfold control_charb, control_char in *.
  destruct Hr as [[H1 H2]|H1].
  - apply Z.leb_le in H1, H2. rewrite H1, H2 in Hc. discriminate.
  - apply Z.eqb_eq in H1. rewrite H1, orb_true_r in Hc. discriminate.
Qed.

(** C4 as stated fails: when the allocation of the working copy fails, a
    URI that none of the four conditions rejects is refused. *)
Lemma wget_validate_uri_allocation_failure :
  wget_validate_uri false (cstr "http://h/") = false
  ∧ ¬ uri_rejected (cstr "http://h/").
Proof.
  split; [reflexivity|].
  unfold uri_rejected.
  intros [Hc|[H|[H|(authority & rest & Heq & Hslash & Hat)]]].
  - revert Hc. apply no_control_char. reflexivity.
  - discriminate.
  - apply H. change (drop 7 (cstr "http://h/")) with ["h"%char; "/"%char].
    set_solver.
  - change (drop 7 (cstr "http://h/")) with ["h"%char; "/"%char] in Heq.
    destruct authority as [|a authority]; [by apply elem_of_nil in Hat|].
    injection Heq as <- Heq.
    destruct authority as [|b authority].
    + apply list_elem_of_singleton in Hat. congruence.
    + injection Heq as <- _. apply Hslash.
      apply list_elem_of_further, list_elem_of_here.
Qed.

(** ** The legacy argument normalizer *)

Lemma no_nul_check (s : cstring) :
  forallb (λ c, negb (Ascii.eqb c NUL)) s = true → NUL ∉ s.
Proof.
  intros H Hin. rewrite forallb_forall in H.
  apply list_elem_of_In, H in Hin. by rewrite Ascii.eqb_refl in Hin.
Qed.

Lemma c_str_app (s r : list ascii) : NUL ∉ s → c_str (s ++ NUL :: r) = s.
Proof.
  induction s as [|a s IH]; intros H; simpl.
  - reflexivity.
  - apply not_elem_of_cons in H as [Hne Hs].
    destruct (Ascii.eqb_spec a NUL) as [->|_]; [congruence|].
    by rewrite IH.
Qed.

Lemma length_store (buf bs : list ascii) (off : nat) :
  off + length bs ≤ length buf → length (store buf off bs) = length buf.
Proof.
  intros H. unfold store. rewrite !length_app, length_take, length_drop. lia.
Qed.

(** A store right after the cells written so far extends them. *)
Lemma store_extend (buf w bs : list ascii) (off : nat) :
  length w = off → take off buf = w →
  store buf off bs = (w ++ bs) ++ drop (off + length bs) buf.
Proof.
  intros Hlen Hw. unfold store. by rewrite Hw, app_assoc.
Qed.

Lemma take_store_extend (buf w bs : list ascii) (off : nat) :
  length w = off → take off buf = w →
  take (off + length bs) (store buf off bs) = w ++ bs.
Proof.
  intros Hlen Hw. rewrite (store_extend buf w bs off Hlen Hw).
  apply take_app_length'. rewrite length_app. lia.
Qed.

Lemma parse_legacy_arg_compose (env : gmap string cstring) (arg : cstring)
    (nurl : list ascii) (rem : nat) :
  strstr arg (cstr "http") ≠ Some 0 → 7 ≤ rem →
  parse_legacy_arg env arg nurl rem =
    let nurl := store nurl 0 (take (rem - 1) (cstr "http://") ++ [NUL]) in
    match strchr arg ":" with
    | Some c => compose nurl 7 (rem - 7) c arg (drop (c + 1) arg)
    | None =>
        match fallback_host env with
        | Some v => compose nurl 7 (rem - 7) (strlen v) v arg
        | None => ((-1)%Z, nurl)
        end
    end.
Proof.
  intros Hhttp Hrem. unfold parse_legacy_arg, snprintf_s.
  rewrite bool_decide_false by done.
  change (strlen (cstr "http://")) with 7.
  rewrite bool_decide_false by lia.
  destruct rem as [|k]; [lia|]. replace (S k - 1) with k by lia.
  cbv zeta. unfold fallback_host.
  destruct (strchr arg ":") as [c|]; [reflexivity|].
  destruct (env_get env "httpserverip") as [v|]; [reflexivity|].
  destruct (env_get env "serverip") as [v|]; reflexivity.
Qed.

Lemma parse_legacy_arg_no_room (env : gmap string cstring) (arg : cstring)
    (nurl : list ascii) (rem : nat) :
  strstr arg (cstr "http") ≠ Some 0 → rem < 7 →
  (parse_legacy_arg env arg nurl rem).1 = (-1)%Z.
Proof.
  intros Hhttp Hrem. unfold parse_legacy_arg, snprintf_s.
  rewrite bool_decide_false by done.
  change (strlen (cstr "http://")) with 7.
  rewrite bool_decide_true by lia. reflexivity.
Qed.

(** With room for the host, the '/', the path and the terminator,
    [compose] appends them to what is written, stays within the array,
    and succeeds. *)
Lemma compose_fits (nurl w : list ascii) (p rem n : nat) (server path : cstring) :
  length w = p → take p nurl = w → p + rem ≤ length nurl →
  n ≤ length server → NUL ∉ w → NUL ∉ take n server → NUL ∉ path →
  n + 1 + length path + 1 ≤ rem →
  ∃ buf, compose nurl p rem n server path = (0%Z, buf)
         ∧ c_str buf = w ++ take n server ++ "/"%char :: path
         ∧ length buf = length nurl.
Proof.
  intros Hlen Hw Hcap Hn Hnw Hns Hnp Hfit. unfold compose, strncpy, strlen.
  rewrite !bool_decide_false by lia.
  replace (n - length server) with 0 by lia.
  replace (length path - length path) with 0 by lia.
  simpl (replicate 0 _). rewrite !app_nil_r, firstn_all.
  eexists. split; [reflexivity|].
  assert (Hnl : length (take n server) = n) by (rewrite length_take; lia).
  set (b1 := store nurl p (take n server)).
  assert (L1 : length b1 = length nurl) by (apply length_store; lia).
  assert (H1 : take (p + n) b1 = w ++ take n server).
  { rewrite <- Hnl at 1. by apply take_store_extend. }
  set (b2 := store b1 (p + n) ["/"%char]).
  assert (L2 : length b2 = length nurl).
  { unfold b2. rewrite length_store; simpl; lia. }
  assert (H2 : take (p + n + 1) b2 = (w ++ take n server) ++ ["/"%char]).
  { apply (take_store_extend b1 (w ++ take n server) ["/"%char] (p + n));
      [|done]. rewrite length_app. lia. }
  set (b3 := store b2 (p + n + 1) path).
  assert (L3 : length b3 = length nurl).
  { unfold b3. rewrite length_store; lia. }
  assert (H3 : take (p + n + 1 + length path) b3
               = ((w ++ take n server) ++ ["/"%char]) ++ path).
  { apply take_store_extend; [|done]. rewrite !length_app. simpl. lia. }
  assert (H4 : length (((w ++ take n server) ++ ["/"%char]) ++ path)
               = p + n + 1 + length path).
  { rewrite !length_app. simpl. lia. }
  split; [|rewrite length_store; simpl; lia].
  rewrite (store_extend b3 _ [NUL] _ H4 H3).
  rewrite <- (app_assoc _ [NUL]). simpl ([NUL] ++ _).
  rewrite c_str_app.
  - by rewrite <- !app_assoc.
  - rewrite !elem_of_app, list_elem_of_singleton.
    intros [[[?|?]|?]|?]; done.
Qed.

(** Without that room it fails. *)
Lemma compose_overflows (nurl : list ascii) (p rem n : nat) (server path : cstring) :
  rem < n + 1 + length path + 1 →
  (compose nurl p rem n server path).1 = (-1)%Z.
Proof.
  intros H. unfold compose, strlen.
  repeat (case_bool_decide; [reflexivity|]). lia.
Qed.

Lemma normalizes_to_compose (env : gmap string cstring) (arg : cstring)
    (nurl : list ascii) (rem n : nat) (server path : cstring) :
  strstr arg (cstr "http") ≠ Some 0 → rem ≤ length nurl →
  (7 ≤ rem →
   parse_legacy_arg env arg nurl rem
   = compose (store nurl 0 (take (rem - 1) (cstr "http://") ++ [NUL]))
       7 (rem - 7) n server path) →
  n ≤ length server → NUL ∉ take n server → NUL ∉ path →
  normalizes_to env arg nurl rem
    (cstr "http://" ++ take n server ++ "/"%char :: path).
Proof.
  intros Hhttp Hcap Heq Hn Hns Hnp.
  assert (Hlen : length (cstr "http://" ++ take n server ++ "/"%char :: path)
                 = 7 + n + 1 + length path).
  { rewrite !length_app, length_take. simpl. lia. }
  unfold normalizes_to. rewrite Hlen. split.
  - intros Hfit. rewrite Heq by lia.
    rewrite firstn_all2 by (simpl; lia).
    set (b0 := store nurl 0 (cstr "http://" ++ [NUL])).
    assert (L0 : length b0 = length nurl).
    { apply length_store. simpl. lia. }
    destruct (compose_fits b0 (cstr "http://") 7 (rem - 7) n server path)
      as (buf & Hbuf & Hstr & Hl); try done; try lia.
    { apply no_nul_check. reflexivity. }
    exists buf. by rewrite <- L0.
  - intros Hbig. destruct (decide (rem < 7)) as [Hsmall|Hroom].
    + by apply parse_legacy_arg_no_room.
    + rewrite Heq by lia. apply compose_overflows. lia.
Qed.

(** C9. For an argument that does not begin with "http": with a ':' in
    it, the text before the first ':' is the host and the text after it
    the path, and the URL is "http://" host "/" path; without ':', the
    whole argument is the path and the host is the value of
    "httpserverip", or of "serverip" when that is not set; with neither
    set the normalizer fails. *)
Theorem parse_legacy_arg_normalizes (env : gmap string cstring)
    (arg : cstring) (nurl : list ascii) (rem : nat) :
  starts_with (cstr "http") arg = false → NUL ∉ arg → rem ≤ length nurl →
  (∀ h p, arg = h ++ ":"%char :: p → ":"%char ∉ h →
     normalizes_to env arg nurl rem (cstr "http://" ++ h ++ "/"%char :: p))
  ∧ (":"%char ∉ arg →
     (∀ v : cstring, env !! "httpserverip"%string = Some v
           ∨ (env !! "httpserverip"%string = None
              ∧ env !! "serverip"%string = Some v) →
           NUL ∉ v →
           normalizes_to env arg nurl rem
             (cstr "http://" ++ v ++ "/"%char :: arg))
     ∧ (env !! "httpserverip"%string = None →
        env !! "serverip"%string = None →
        (parse_legacy_arg env arg nurl rem).1 = (-1)%Z)).
Proof.
  intros Hhttp Hnul Hcap.
  assert (Hstr : strstr arg (cstr "http") ≠ Some 0).
  { rewrite strstr_zero. congruence. }
  split; [|intros Hcolon; split].
  - intros h p -> Hh.
    assert (Hsplit : (NUL ∉ h) ∧ (NUL ∉ p)).
    { rewrite elem_of_app, elem_of_cons in Hnul. tauto. }
    pose proof (normalizes_to_compose env (h ++ ":"%char :: p) nurl rem
                  (length h) (h ++ ":"%char :: p) p Hstr Hcap) as Hc.
    rewrite take_app_length in Hc. apply Hc; try tauto.
    + intros Hrem. rewrite parse_legacy_arg_compose by done. cbv zeta.
      rewrite strchr_app by done. do 2 f_equal.
      rewrite (cons_middle ":"%char h), app_assoc. apply drop_prefix.
      rewrite length_app. reflexivity.
    + rewrite length_app. lia.
  - intros v Hv Hnv.
    pose proof (normalizes_to_compose env arg nurl rem
                  (length v) v arg Hstr Hcap) as Hc.
    rewrite firstn_all in Hc. apply Hc; try done.
    intros Hrem. rewrite parse_legacy_arg_compose by done. cbv zeta.
    apply strchr_None in Hcolon. rewrite Hcolon.
    unfold fallback_host, env_get.
    destruct Hv as [->|[-> ->]]; reflexivity.
  - intros H1 H2. destruct (decide (rem < 7)) as [Hsmall|Hroom].
    + by apply parse_legacy_arg_no_room.
    + rewrite parse_legacy_arg_compose by (done || lia). cbv zeta.
      apply strchr_None in Hcolon. rewrite Hcolon.
      unfold fallback_host, env_get. rewrite H1, H2. reflexivity.
Qed.

(** "host:path/to/file" and, with "serverip" set, "myfile.img" in an array
    of 64 cells; "myfile.img" with no server set. *)
Lemma parse_legacy_arg_normalizes_witness :
  normalizes_to ∅ (cstr "host:path/to/file") (replicate 64 NUL) 64
    (cstr "http://host/path/to/file")
  ∧ normalizes_to {[ "serverip"%string := cstr "10.0.0.1" ]}
      (cstr "myfile.img") (replicate 64 NUL) 64
      (cstr "http://10.0.0.1/myfile.img")
  ∧ (parse_legacy_arg ∅ (cstr "myfile.img") (replicate 64 NUL) 64).1 = (-1)%Z.
Proof.
  split; [|split].
  - refine (proj1 (parse_legacy_arg_normalizes ∅ (cstr "host:path/to/file")
                     (replicate 64 NUL) 64 eq_refl _ _)
              (cstr "host") (cstr "path/to/file") eq_refl _).
    + apply no_nul_check. reflexivity.
    + simpl. lia.
    + apply strchr_None. reflexivity.
  - refine (proj1 (proj2 (parse_legacy_arg_normalizes
                     {[ "serverip"%string := cstr "10.0.0.1" ]}
                     (cstr "myfile.img") (replicate 64 NUL) 64 eq_refl _ _) _)
              (cstr "10.0.0.1") _ _).
    + apply no_nul_check. reflexivity.
    + simpl. lia.
    + apply strchr_None. reflexivity.
    + right. split; reflexivity.
    + apply no_nul_check. reflexivity.
  - refine (proj2 (proj2 (parse_legacy_arg_normalizes ∅ (cstr "myfile.img")
                     (replicate 64 NUL) 64 eq_refl _ _) _) eq_refl eq_refl).
    + apply no_nul_check. reflexivity.
    + simpl. lia.
    + apply strchr_None. reflexivity.
Defined.

(** What the code does with an argument that begins with "http": it is
    copied whole when it is shorter than the capacity, refused when it is
    longer, and copied without its last character, with success returned,
    when its length equals the capacity. *)
Lemma parse_legacy_arg_verbatim (env : gmap string cstring) (arg : cstring)
    (nurl : list ascii) (rem : nat) :
  starts_with (cstr "http") arg = true → NUL ∉ arg → rem ≤ length nurl →
  (length arg < rem →
   ∃ buf, parse_legacy_arg env arg nurl rem = (0%Z, buf) ∧ c_str buf = arg)
  ∧ (length arg = rem →
     ∃ buf, parse_legacy_arg env arg nurl rem = (0%Z, buf)
            ∧ c_str buf = take (rem - 1) arg)
  ∧ (rem < length arg → (parse_legacy_arg env arg nurl rem).1 = (-1)%Z).
Proof.
  intros Hhttp Hnul Hcap. apply strstr_zero in Hhttp.
  assert (Hpos : 4 ≤ length arg).
  { apply strstr_zero, starts_with_spec in Hhttp as [r ->].
    rewrite length_app. simpl. lia. }
  assert (Hcopy : ∀ k, NUL ∉ take k arg).
  { intros k Hin. apply Hnul. by apply (subseteq_take k arg). }
  unfold parse_legacy_arg, snprintf_s, strlen.
  rewrite bool_decide_true by done.
  destruct rem as [|k].
  { split; [intros; lia|]. split; [intros; lia|].
    intros _. by rewrite bool_decide_true by lia. }
  replace (S k - 1) with k by lia.
  unfold store. rewrite take_0, app_nil_l, <- app_assoc.
  simpl ([NUL] ++ _).
  split; [|split].
  - intros Hlt. rewrite bool_decide_false by lia. eexists. split; [done|].
    rewrite c_str_app by done. apply firstn_all2. lia.
  - intros Heq. rewrite bool_decide_false by lia. eexists. split; [done|].
    by rewrite c_str_app.
  - intros Hgt. by rewrite bool_decide_true by lia.
Qed.

(** C7, at an input where the code departs from it: an argument that
    begins with "http" and is as long as the capacity is accepted and
    stored without its last character. *)
Theorem parse_legacy_arg_truncates :
  let r := parse_legacy_arg ∅ (cstr "http://a/b") (replicate 10 "x"%char) 10 in
  strlen (cstr "http://a/b") = 10
  ∧ r.1 = 0%Z
  ∧ c_str r.2 = cstr "http://a/".
Proof. repeat split. Qed.

(** ** The response sink *)

Lemma wrap_ulong_is_ulong (z : Z) : is_ulong (wrap_ulong z).
Proof. unfold is_ulong, wrap_ulong. apply Z.mod_pos_bound. reflexivity. Qed.

Lemma wrap_ulong_small (z : Z) : is_ulong z → wrap_ulong z = z.
Proof. unfold is_ulong, wrap_ulong. intros H. by apply Z.mod_small. Qed.

Lemma wrap_ulong_add (a b c : Z) :
  wrap_ulong (wrap_ulong (a + b) + c) = wrap_ulong (a + (b + c)).
Proof.
  unfold wrap_ulong. rewrite Zplus_mod_idemp_l. f_equal. lia.
Qed.

Lemma memcpy_app (m : gmap Z ascii) (dst : Z) (a b : list ascii) :
  memcpy m dst (a ++ b) = memcpy (memcpy m dst a) (dst + Z.of_nat (length a)) b.
Proof.
  revert m dst. induction a as [|x a IH]; intros m dst; simpl.
  - f_equal. lia.
  - rewrite IH. f_equal. lia.
Qed.

Lemma appended_nil (st : state) : room st 0 → appended st st [].
Proof.
  intros (Hd & Hs & _). unfold appended. simpl.
  rewrite !Z.add_0_r, !wrap_ulong_small by done. done.
Qed.

Lemma appended_room (st st' : state) (a : list ascii) (n : nat) :
  room st (length a + n) → appended st st' a → room st' n.
Proof.
  intros (Hd & Hs & Hr) (_ & Hd' & Hs'). unfold room.
  rewrite Hd', Hs'. repeat split; try apply wrap_ulong_is_ulong.
  unfold wrap_ulong, is_ulong in *.
  destruct (decide (ctx_daddr (ctx st) + Z.of_nat (length a)
                    < 2 ^ BITS_PER_LONG)%Z) as [Hlt|Hge].
  - rewrite Z.mod_small by lia. lia.
  - replace (ctx_daddr (ctx st) + Z.of_nat (length a))%Z
      with (2 ^ BITS_PER_LONG)%Z by lia.
    rewrite Z_mod_same_full. lia.
Qed.

Lemma appended_trans (st1 st2 st3 : state) (a b : list ascii) :
  room st1 (length a + length b) →
  appended st1 st2 a → appended st2 st3 b → appended st1 st3 (a ++ b).
Proof.
  intros (Hd & Hs & Hr) (Hm2 & Hd2 & Hs2) (Hm3 & Hd3 & Hs3).
  unfold appended. rewrite Hm3, Hd3, Hs3, Hm2, Hd2, Hs2.
  rewrite !wrap_ulong_add, length_app, Nat2Z.inj_add, memcpy_app.
  repeat split. destruct b as [|x b]; [reflexivity|].
  rewrite wrap_ulong_small; [reflexivity|].
  unfold is_ulong in *. simpl length in Hr. lia.
Qed.

Section Folding.
Context {A : Type}.
Variable f : state → A → state.
Variable bytes_of : A → list ascii.
Hypothesis f_appends :
  ∀ st x, room st (length (bytes_of x)) → appended st (f st x) (bytes_of x).

(** Steps that each append their bytes append, together, the bytes of
    all of them. *)
Lemma fold_appended (xs : list A) (st : state) :
  room st (length (concat (map bytes_of xs))) →
  appended st (fold_left f xs st) (concat (map bytes_of xs)).
Proof.
  revert st. induction xs as [|x xs IH]; intros st Hroom; simpl in *.
  - by apply appended_nil.
  - rewrite length_app in Hroom.
    assert (H1 : appended st (f st x) (bytes_of x)).
    { apply f_appends. destruct Hroom as (? & ? & ?).
      split; [done|]. split; [done|]. lia. }
    apply (appended_trans st (f st x)); [done|done|].
    apply IH. by apply (appended_room st _ (bytes_of x)).
Qed.
End Folding.

Lemma recv_buf_appended (st : state) (payload : list ascii) :
  appended st (recv_buf st payload) payload.
Proof.
  unfold appended, recv_buf, pbuf_len.
  destruct (_ <? _)%Z; simpl; done.
Qed.

Lemma httpc_recv_cb_appended (timer : Z) (p : pbuf) (st : state) :
  room st (length (concat p)) →
  appended st (httpc_recv_cb timer p st).2 (concat p).
Proof.
  intros Hroom. destruct p as [|payload p]; [by apply appended_nil|].
  unfold httpc_recv_cb. cbn [snd].
  set (st0 := if (_ =? 0)%Z then _ else st).
  assert (H0 : mem st0 = mem st ∧ ctx_daddr (ctx st0) = ctx_daddr (ctx st)
               ∧ ctx_size (ctx st0) = ctx_size (ctx st)).
  { unfold st0. destruct (_ =? 0)%Z; done. }
  destruct H0 as (Hm & Hd & Hs).
  assert (Hf : appended st0 (fold_left recv_buf (payload :: p) st0)
                 (concat (payload :: p))).
  { rewrite <- (list_fmap_id (payload :: p)) at 2.
    apply (fold_appended recv_buf id).
    - intros. apply recv_buf_appended.
    - unfold room. rewrite list_fmap_id, Hd, Hs. exact Hroom. }
  unfold appended in *. simpl (mem (emit _ _)). simpl (ctx (emit _ _)).
  by rewrite <- Hm, <- Hd, <- Hs.
Qed.

(** C10. The bytes of a response delivered to [httpc_recv_cb] in any
    number of calls, each with any chain of buffers, leave the same byte
    counter, the same write cursor and the same memory as their delivery
    in one call with one buffer, when the destination region lies in the
    address space. *)
Theorem httpc_recv_cb_fragmentation (st : state) (bytes : list ascii)
    (timer : Z) (fragments : list (Z * pbuf)) :
  is_ulong (ctx_daddr (ctx st)) → is_ulong (ctx_size (ctx st)) →
  (ctx_daddr (ctx st) + Z.of_nat (length bytes) ≤ 2 ^ BITS_PER_LONG)%Z →
  concat (map (λ fr : Z * pbuf, concat fr.2) fragments) = bytes →
  let whole := (httpc_recv_cb timer [bytes] st).2 in
  let split :=
    fold_left (λ st fr, (httpc_recv_cb fr.1 fr.2 st).2) fragments st in
  ctx_size (ctx split) = ctx_size (ctx whole)
  ∧ mem split = mem whole
  ∧ ctx_daddr (ctx split) = ctx_daddr (ctx whole).
Proof.
  intros Hd Hs Hr Hbytes whole split.
  assert (Hw : appended st whole bytes).
  { pose proof (httpc_recv_cb_appended timer [bytes] st) as H.
    cbn [concat] in H. rewrite app_nil_r in H. apply H.
    split; [done|]. by split. }
  assert (Hsp : appended st split bytes).
  { rewrite <- Hbytes.
    apply (fold_appended
             (λ (st : state) (fr : Z * pbuf), (httpc_recv_cb fr.1 fr.2 st).2)
             (λ fr : Z * pbuf, concat fr.2)).
    - intros st' fr. apply httpc_recv_cb_appended.
    - rewrite Hbytes. split; [done|]. by split. }
  destruct Hw as (Hm & Hda & Hsz), Hsp as (Hm' & Hda' & Hsz').
  by rewrite Hm, Hda, Hsz, Hm', Hda', Hsz'.
Qed.

(** "hello world" in one buffer, and in three calls over four buffers. *)
Lemma httpc_recv_cb_fragmentation_witness :
  let st := State (Wget_ctx (cstr "/f") 4096 4096 0 0 0 NOT_DONE) ∅ [] in
  let whole := (httpc_recv_cb 7 [cstr "hello world"] st).2 in
  let split :=
    fold_left (λ st fr, (httpc_recv_cb fr.1 fr.2 st).2)
      [(7%Z, [cstr "he"; cstr "l"]); (9%Z, [cstr "lo wor"]); (12%Z, [cstr "ld"])]
      st in
  ctx_size (ctx split) = ctx_size (ctx whole)
  ∧ mem split = mem whole
  ∧ ctx_daddr (ctx split) = ctx_daddr (ctx whole).
Proof.
  apply (httpc_recv_cb_fragmentation
           (State (Wget_ctx (cstr "/f") 4096 4096 0 0 0 NOT_DONE) ∅ [])
           (cstr "hello world") 7
           [(7%Z, [cstr "he"; cstr "l"]); (9%Z, [cstr "lo wor"]);
            (12%Z, [cstr "ld"])]).
  - unfold is_ulong, BITS_PER_LONG. cbn [ctx ctx_daddr]. lia.
  - unfold is_ulong, BITS_PER_LONG. cbn [ctx ctx_size]. lia.
  - unfold BITS_PER_LONG. cbn [ctx ctx_daddr]. simpl length. lia.
  - reflexivity.
Defined.

(** ** The result finalizer *)

Lemma clamp_elapsed (e : Z) :
  (0 ≤ e)%Z → (if (e =? 0)%Z then 1%Z else e) = Z.max 1 e.
Proof. intros H. destruct (Z.eqb_spec e 0); lia. Qed.

Lemma throughput_exact (rx elapsed : Z) :
  (0 ≤ rx < 2 ^ 32)%Z → (1 ≤ elapsed)%Z →
  throughput rx elapsed = (rx / elapsed * 1000)%Z.
Proof.
  intros Hrx He. unfold throughput, wrap_ulong. apply Z.mod_small.
  assert (0 ≤ rx / elapsed)%Z by (apply Z.div_pos; lia).
  assert (rx / elapsed ≤ rx)%Z by (apply Z.div_le_upper_bound; nia).
  change (2 ^ BITS_PER_LONG)%Z with 18446744073709551616%Z.
  change (2 ^ 32)%Z with 4294967296%Z in Hrx. lia.
Qed.

(** C2. The finalizer sets the status to FAILURE when the protocol outcome
    is not OK, and when it is OK but the server status is not 200.  With
    outcome OK and status 200 the elapsed time is max(1, now − start_time),
    never 0; the throughput printed is the received length divided by it,
    times 1000, which is the length times 1000 when no time has elapsed;
    the boot device and the file size are published; and the status is
    FAILURE exactly when setting "filesize" or "fileaddr" fails, SUCCESS
    otherwise. *)
Theorem httpc_result_cb_decision (o : result_oracle)
    (httpc_result rx_content_len srv_res : Z) (st : state) :
  (0 ≤ rx_content_len < 2 ^ 32)%Z →
  (0 ≤ ctx_start_time (ctx st) ≤ timer_now o)%Z →
  (timer_now o < 2 ^ BITS_PER_LONG)%Z →
  let st' := httpc_result_cb o httpc_result rx_content_len srv_res st in
  let elapsed := Z.max 1 (timer_now o - ctx_start_time (ctx st)) in
  (httpc_result ≠ HTTPC_RESULT_OK → ctx_done (ctx st') = FAILURE)
  ∧ (httpc_result = HTTPC_RESULT_OK → srv_res ≠ 200%Z →
     ctx_done (ctx st') = FAILURE)
  ∧ (httpc_result = HTTPC_RESULT_OK → srv_res = 200%Z →
     (1 ≤ elapsed)%Z
     ∧ Print_transferred rx_content_len elapsed ∈ trace st'
     ∧ Print_size (rx_content_len / elapsed * 1000) ∈ trace st'
     ∧ (timer_now o = ctx_start_time (ctx st) →
        Print_size (rx_content_len * 1000) ∈ trace st')
     ∧ Efi_set_bootdev (ctx_path (ctx st)) (ctx_saved_daddr (ctx st))
         rx_content_len ∈ trace st'
     ∧ Env_set_hex "filesize" rx_content_len ∈ trace st'
     ∧ (filesize_rc o = 0%Z →
        Env_set_hex "fileaddr" (ctx_saved_daddr (ctx st)) ∈ trace st')
     ∧ (ctx_done (ctx st') = FAILURE
        ↔ filesize_rc o ≠ 0%Z ∨ fileaddr_rc o ≠ 0%Z)
     ∧ (ctx_done (ctx st') = SUCCESS
        ↔ filesize_rc o = 0%Z ∧ fileaddr_rc o = 0%Z)).
Proof.
  intros Hrx Hstart Hnow st' elapsed. subst st'.
  unfold httpc_result_cb. split; [|split].
  - intros Hne. destruct (Z.eqb_spec httpc_result HTTPC_RESULT_OK); done.
  - intros -> Hne. simpl (negb _).
    destruct (Z.eqb_spec srv_res 200); done.
  - intros -> ->. rewrite !Z.eqb_refl. cbn [negb]. cbv zeta.
    assert (He : (if (get_timer (timer_now o) (ctx_start_time (ctx st)) =? 0)%Z
                  then 1%Z
                  else get_timer (timer_now o) (ctx_start_time (ctx st)))
                 = elapsed).
    { unfold get_timer. rewrite wrap_ulong_small by (unfold is_ulong; lia).
      apply clamp_elapsed. lia. }
    assert (Hctx : ∀ e s, ctx (emit e s) = ctx s) by done.
    assert (Hnl : ctx (if (PROGRESS_PRINT_STEP_BYTES <? rx_content_len)%Z
                       then emit Print_newline st else st) = ctx st)
      by (destruct (_ <? _)%Z; done).
    rewrite !Hctx, Hnl, He.
    assert (H1 : (1 ≤ elapsed)%Z) by (unfold elapsed; lia).
    rewrite throughput_exact by done.
    assert (H0 : timer_now o = ctx_start_time (ctx st) →
                 (rx_content_len / elapsed * 1000 = rx_content_len * 1000)%Z).
    { intros Heq. unfold elapsed. rewrite Heq, Z.sub_diag.
      change (Z.max 1 0) with 1%Z. by rewrite Z.div_1_r. }
    split; [done|].
    destruct (Z.eqb_spec (filesize_rc o) 0) as [Hf|Hf];
      destruct (Z.eqb_spec (fileaddr_rc o) 0) as [Ha|Ha];
      cbn [negb]; repeat split; try (intros Heq; rewrite <- (H0 Heq));
      try in_trace; try done; try tauto; try (intros [?|?]; done);
      try (intros [? ?]; done).
Qed.

(** 100 bytes received with no time elapsed: a throughput of 100000 is
    printed and the status is SUCCESS. *)
Lemma httpc_result_cb_decision_witness :
  let st := State (Wget_ctx (cstr "/f") 4196 4096 100 0 1000 NOT_DONE) ∅ [] in
  let st' := httpc_result_cb (Result_oracle 1000 0 0) 0 100 200 st in
  Print_size 100000 ∈ trace st' ∧ ctx_done (ctx st') = SUCCESS.
Proof.
  intros st st'.
  destruct (httpc_result_cb_decision (Result_oracle 1000 0 0) 0 100 200 st)
    as (_ & _ & H).
  - lia.
  - cbn [ctx ctx_start_time timer_now st]. lia.
  - unfold BITS_PER_LONG. cbn [timer_now]. lia.
  - destruct (H eq_refl eq_refl) as (_ & _ & _ & Hp & _ & _ & _ & _ & Hs).
    split; [apply Hp; reflexivity|apply Hs; split; reflexivity].
Defined.

(** ** The download driver *)

Lemma teardowns_app (a b : list event) :
  teardowns (a ++ b) = teardowns a + teardowns b.
Proof. unfold teardowns. by rewrite List.filter_app, length_app. Qed.

Lemma teardowns_emit (e : event) (st : state) :
  teardowns (trace (emit e st))
  = teardowns (trace st) + (if is_teardown e then 1 else 0).
Proof.
  unfold emit. cbn [trace]. rewrite teardowns_app. unfold teardowns. simpl.
  by destruct (is_teardown e).
Qed.

Lemma recv_buf_trace (st : state) (payload : list ascii) :
  teardowns (trace (recv_buf st payload)) = teardowns (trace st)
  ∧ ctx_done (ctx (recv_buf st payload)) = ctx_done (ctx st).
Proof.
  unfold recv_buf. destruct (_ <? _)%Z; cbn [trace ctx ctx_done]; [|done].
  rewrite teardowns_app. split; [|done]. unfold teardowns. simpl. lia.
Qed.

Lemma fold_recv_buf_trace (p : pbuf) (st : state) :
  teardowns (trace (fold_left recv_buf p st)) = teardowns (trace st)
  ∧ ctx_done (ctx (fold_left recv_buf p st)) = ctx_done (ctx st).
Proof.
  revert st. induction p as [|payload p IH]; intros st; simpl; [done|].
  destruct (IH (recv_buf st payload)) as [-> ->]. apply recv_buf_trace.
Qed.

(** The response sink calls no teardown and leaves the status alone. *)
Lemma httpc_recv_cb_trace (timer : Z) (p : pbuf) (st : state) :
  teardowns (trace (httpc_recv_cb timer p st).2) = teardowns (trace st)
  ∧ ctx_done (ctx (httpc_recv_cb timer p st).2) = ctx_done (ctx st).
Proof.
  destruct p as [|payload p]; [done|]. unfold httpc_recv_cb. cbn [snd].
  rewrite !teardowns_emit. cbn [is_teardown]. rewrite !Nat.add_0_r.
  change (ctx (emit ?e (emit ?e' ?s))) with (ctx s).
  destruct (fold_recv_buf_trace (payload :: p)
              (if (ctx_start_time (ctx st) =? 0)%Z
               then set_ctx (Wget_ctx (ctx_path (ctx st)) (ctx_daddr (ctx st))
                      (ctx_saved_daddr (ctx st)) (ctx_size (ctx st))
                      (ctx_prevsize (ctx st)) timer (ctx_done (ctx st))) st
               else st)) as [-> ->].
  by destruct (_ =? 0)%Z.
Qed.

(** The finalizer calls no teardown and leaves a terminal status. *)
Lemma httpc_result_cb_trace (o : result_oracle)
    (httpc_result rx_content_len srv_res : Z) (st : state) :
  teardowns (trace (httpc_result_cb o httpc_result rx_content_len srv_res st))
  = teardowns (trace st)
  ∧ ctx_done (ctx (httpc_result_cb o httpc_result rx_content_len srv_res st))
    ≠ NOT_DONE.
Proof.
  unfold httpc_result_cb.
  repeat (match goal with |- context [if ?b then _ else _] => destruct b end);
    unfold set_done, set_ctx; cbn [trace ctx ctx_done];
    rewrite ?teardowns_emit; cbn [is_teardown]; split; (lia || done).
Qed.

Lemma run_callback_teardowns (st : state) (cb : callback) :
  teardowns (trace (run_callback st cb)) = teardowns (trace st).
Proof.
  destruct cb; simpl; [apply httpc_recv_cb_trace|apply httpc_result_cb_trace].
Qed.

Lemma run_callback_terminal (st : state) (cb : callback) :
  ctx_done (ctx st) ≠ NOT_DONE ∨ is_result cb = true →
  ctx_done (ctx (run_callback st cb)) ≠ NOT_DONE.
Proof.
  destruct cb as [timer p|o a b c]; cbn [run_callback is_result].
  - intros [H|H]; [|done].
    by rewrite (proj2 (httpc_recv_cb_trace timer p st)).
  - intros _. apply httpc_result_cb_trace.
Qed.

Lemma run_callback_pending (st : state) (cb : callback) :
  is_result cb = false →
  ctx_done (ctx (run_callback st cb)) = ctx_done (ctx st).
Proof.
  destruct cb as [timer p|o a b c]; cbn [run_callback is_result]; [|done].
  intros _. apply httpc_recv_cb_trace.
Qed.

Lemma run_callbacks_teardowns (cbs : list callback) (st : state) :
  teardowns (trace (fold_left run_callback cbs st)) = teardowns (trace st).
Proof.
  revert st. induction cbs as [|cb cbs IH]; intros st; simpl; [done|].
  by rewrite IH, run_callback_teardowns.
Qed.

Lemma run_callbacks_terminal (cbs : list callback) (st : state) :
  ctx_done (ctx st) ≠ NOT_DONE ∨ existsb is_result cbs = true →
  ctx_done (ctx (fold_left run_callback cbs st)) ≠ NOT_DONE.
Proof.
  revert st. induction cbs as [|cb cbs IH]; intros st; simpl.
  - intros [H|H]; done.
  - intros H. apply IH.
    destruct (is_result cb) eqn:E; simpl in H.
    + left. apply run_callback_terminal. by right.
    + destruct H as [H|H]; [|by right].
      left. apply run_callback_terminal. by left.
Qed.

Lemma run_callbacks_pending (cbs : list callback) (st : state) :
  existsb is_result cbs = false →
  ctx_done (ctx (fold_left run_callback cbs st)) = ctx_done (ctx st).
Proof.
  revert st. induction cbs as [|cb cbs IH]; intros st; simpl; [done|].
  intros H. apply orb_false_iff in H as [H1 H2].
  by rewrite IH, run_callback_pending.
Qed.

Lemma after_turn_teardowns (p : poll) (st : state) :
  teardowns (trace (after_turn p st)) = teardowns (trace st).
Proof.
  unfold after_turn.
  rewrite teardowns_emit, run_callbacks_teardowns, teardowns_emit,
    run_callbacks_teardowns, teardowns_emit.
  simpl. lia.
Qed.

Lemma after_turn_terminal (p : poll) (st : state) :
  finalizes p = true → ctx_done (ctx (after_turn p st)) ≠ NOT_DONE.
Proof.
  unfold finalizes, after_turn. intros H.
  change (ctx (emit Ctrlc ?s)) with (ctx s).
  apply run_callbacks_terminal.
  destruct (existsb is_result (timeout_callbacks p)); [by right|].
  left. change (ctx (emit Sys_check_timeouts ?s)) with (ctx s).
  apply run_callbacks_terminal. right. by rewrite orb_false_r in H.
Qed.

Lemma after_turn_pending (p : poll) (st : state) :
  finalizes p = false →
  ctx_done (ctx (after_turn p st)) = ctx_done (ctx st).
Proof.
  unfold finalizes, after_turn. intros H.
  apply orb_false_iff in H as [H1 H2].
  change (ctx (emit Ctrlc ?s)) with (ctx s).
  rewrite run_callbacks_pending by done.
  change (ctx (emit Sys_check_timeouts ?s)) with (ctx s).
  by rewrite run_callbacks_pending.
Qed.

Lemma poll_loop_unfold (p : poll) (ps : list poll) (st : state) :
  ctx_done (ctx st) = NOT_DONE →
  poll_loop (p :: ps) st
  = if ctrlc p then Some (after_turn p st) else poll_loop ps (after_turn p st).
Proof. intros H. simpl. by rewrite H. Qed.

Lemma poll_loop_done (ps : list poll) (st : state) :
  ctx_done (ctx st) ≠ NOT_DONE → poll_loop ps st = Some st.
Proof. intros H. destruct ps; simpl; by destruct (ctx_done (ctx st)). Qed.

(** The loop itself never tears the interface down. *)
Lemma poll_loop_teardowns (ps : list poll) (st st' : state) :
  poll_loop ps st = Some st' →
  teardowns (trace st') = teardowns (trace st).
Proof.
  revert st. induction ps as [|p ps IH]; intros st H.
  - simpl in H. destruct (ctx_done (ctx st)); congruence.
  - destruct (ctx_done (ctx st)) eqn:E.
    + rewrite poll_loop_unfold in H by done.
      destruct (ctrlc p).
      * injection H as <-. apply after_turn_teardowns.
      * apply IH in H. by rewrite H, after_turn_teardowns.
    + rewrite poll_loop_done in H by congruence. congruence.
    + rewrite poll_loop_done in H by congruence. congruence.
Qed.

(** The loop exits when a turn sees the interrupt or the finalizer. *)
Lemma poll_loop_exits (ps : list poll) (st : state) :
  Exists (λ p, ctrlc p = true ∨ finalizes p = true) ps →
  is_Some (poll_loop ps st).
Proof.
  intros H. revert st. induction H as [p ps Hp|p ps _ IH]; intros st.
  - destruct (decide (ctx_done (ctx st) = NOT_DONE)) as [E|E].
    + rewrite poll_loop_unfold by done.
      destruct (ctrlc p) eqn:Ec; [done|].
      destruct Hp as [?|Hf]; [done|].
      rewrite poll_loop_done; [done|]. by apply after_turn_terminal.
    + by rewrite poll_loop_done.
  - destruct (decide (ctx_done (ctx st) = NOT_DONE)) as [E|E].
    + rewrite poll_loop_unfold by done. destruct (ctrlc p); [done|apply IH].
    + by rewrite poll_loop_done.
Qed.

(** An interrupt seen before the finalizer is called ends the loop with
    the status still pending. *)
Lemma poll_loop_interrupted (pre post : list poll) (p : poll) (st : state) :
  ctx_done (ctx st) = NOT_DONE →
  Forall (λ q, ctrlc q = false ∧ finalizes q = false) pre →
  ctrlc p = true → finalizes p = false →
  ∃ st', poll_loop (pre ++ p :: post) st = Some st'
         ∧ ctx_done (ctx st') = NOT_DONE.
Proof.
  intros Hst Hpre Hc Hf. revert st Hst.
  induction Hpre as [|q pre [Hqc Hqf] _ IH]; intros st Hst; simpl app.
  - rewrite poll_loop_unfold, Hc by done. eexists. split; [done|].
    by rewrite after_turn_pending.
  - rewrite poll_loop_unfold, Hqc by done. apply IH.
    by rewrite after_turn_pending.
Qed.

Lemma wget_loop_unfold (e : environment) (dst_addr : Z) (uri : cstring)
    (m : gmap Z ascii) (r : parsed_url) :
  parse_url uri = Ok r → netif_created e = true →
  wget_loop e dst_addr uri m =
    if negb (httpc_get_file_dns_rc e =? 0)%Z then
      Some (CMD_RET_FAILURE,
            emit Net_lwip_remove_netif (requested dst_addr uri m r))
    else
      match poll_loop (polls e) (requested dst_addr uri m r) with
      | None => None
      | Some st =>
          match ctx_done (ctx st) with
          | SUCCESS => Some (0%Z, emit Net_lwip_remove_netif st)
          | _ => Some ((-1)%Z, emit Net_lwip_remove_netif st)
          end
      end.
Proof.
  intros Hr He. unfold wget_loop. rewrite Hr, He. reflexivity.
Qed.

(** C3. Once the interface is created, every way out of [wget_loop] calls
    [net_lwip_remove_netif] exactly once, and the value returned is 0
    exactly when the status is SUCCESS.  A request that cannot be initiated
    returns CMD_RET_FAILURE; the loop exits as soon as a turn sees the
    interrupt or the finalizer; and an interrupt seen while the status is
    still pending makes [wget_loop] return -1. *)
Theorem wget_loop_teardown (e : environment) (dst_addr : Z) (uri : cstring)
    (m : gmap Z ascii) (r : parsed_url) :
  parse_url uri = Ok r → netif_created e = true →
  (∀ ret st, wget_loop e dst_addr uri m = Some (ret, st) →
     teardowns (trace st) = 1
     ∧ (ret = 0%Z ↔ ctx_done (ctx st) = SUCCESS))
  ∧ (httpc_get_file_dns_rc e ≠ 0%Z →
     ∃ st, wget_loop e dst_addr uri m = Some (CMD_RET_FAILURE, st))
  ∧ (Exists (λ p, ctrlc p = true ∨ finalizes p = true) (polls e) →
     is_Some (wget_loop e dst_addr uri m))
  ∧ (httpc_get_file_dns_rc e = 0%Z →
     ∀ pre p post, polls e = pre ++ p :: post →
       Forall (λ q, ctrlc q = false ∧ finalizes q = false) pre →
       ctrlc p = true → finalizes p = false →
       ∃ st, wget_loop e dst_addr uri m = Some ((-1)%Z, st)
             ∧ ctx_done (ctx st) = NOT_DONE).
Proof.
  intros Hr He. rewrite (wget_loop_unfold e dst_addr uri m r Hr He).
  split; [|split; [|split]].
  - intros ret st H.
    destruct (Z.eqb_spec (httpc_get_file_dns_rc e) 0) as [Hrc|Hrc];
      cbn [negb] in H.
    + destruct (poll_loop (polls e) (requested dst_addr uri m r))
        as [st1|] eqn:Hloop; [|discriminate].
      apply poll_loop_teardowns in Hloop.
      assert (Ht : teardowns (trace (emit Net_lwip_remove_netif st1)) = 1).
      { rewrite teardowns_emit, Hloop. reflexivity. }
      destruct (ctx_done (ctx st1)) eqn:Hd; injection H as <- <-;
        (split; [exact Ht|]); change (ctx (emit ?x ?s)) with (ctx s);
        rewrite Hd; split; intros; done.
    + injection H as <- <-. split; [reflexivity|].
      split; intros; done.
  - intros Hrc.
    destruct (Z.eqb_spec (httpc_get_file_dns_rc e) 0); [done|].
    by eexists.
  - intros Hex.
    destruct (Z.eqb_spec (httpc_get_file_dns_rc e) 0); cbn [negb]; [|done].
    destruct (poll_loop_exits (polls e) (requested dst_addr uri m r) Hex)
      as [st1 ->].
    by destruct (ctx_done (ctx st1)).
  - intros -> pre p post -> Hpre Hc Hf. cbn [Z.eqb negb].
    destruct (poll_loop_interrupted pre post p (requested dst_addr uri m r))
      as (st1 & -> & Hd); try done.
    rewrite Hd. eexists. split; [reflexivity|]. exact Hd.
Qed.

(** A run interrupted in its second turn, after two bytes were received. *)
Lemma wget_loop_teardown_witness :
  let e := Environment true 0
             [Poll [Recv_cb 5 [cstr "ab"]] [] false; Poll [] [] true] in
  ∃ st, wget_loop e 4096 (cstr "http://h/x") ∅ = Some ((-1)%Z, st)
        ∧ teardowns (trace st) = 1.
Proof.
  intros e.
  pose proof (wget_loop_teardown e 4096 (cstr "http://h/x") ∅
                (Parsed (cstr "h") 80 8) eq_refl eq_refl) as (H1 & _ & _ & H4).
  destruct (H4 eq_refl [Poll [Recv_cb 5 [cstr "ab"]] [] false]
              (Poll [] [] true) [] eq_refl) as (st & Hst & _).
  - repeat constructor.
  - reflexivity.
  - reflexivity.
  - exists st. split; [exact Hst|]. by apply (H1 _ _ Hst).
Defined.

(** ** Further properties of the URL parser *)

(** A URL "http://" host "/" path or "http://" host ":" port "/" path,
    with a host free of ':' and shorter than [SERVER_NAME_SIZE], parses to
    its parts: with a port of decimal digits that denote at most 65535, to
    the host, that port and the path; without port, when the host holds no
    '/' and the path no ':', to the host, port 80 and the path.  The path
    is the URL from its '/' on. *)
Theorem parse_url_well_formed (h rest : cstring) :
  ":"%char ∉ h → length h < SERVER_NAME_SIZE →
  (∀ ds, Forall (λ c, is_digit c = true) ds → (decimal ds 0 ≤ 65535)%Z →
     let url := cstr "http://" ++ h ++ ":"%char :: ds ++ "/"%char :: rest in
     let r := Parsed h (decimal ds 0) (7 + length h + 1 + length ds) in
     parse_url url = Ok r ∧ path_string url r = "/"%char :: rest)
  ∧ ("/"%char ∉ h → ":"%char ∉ rest →
     let url := cstr "http://" ++ h ++ "/"%char :: rest in
     let r := Parsed h HTTP_PORT_DEFAULT (7 + length h) in
     parse_url url = Ok r ∧ path_string url r = "/"%char :: rest).
Proof.
  intros Hc Hlen. split.
  - intros ds Hds Hport. by apply parse_url_with_port.
  - intros Hs Hr. by apply parse_url_default_port.
Qed.

(** "http://h:8080/x" and "http://example.com/a/b". *)
Lemma parse_url_well_formed_witness :
  parse_url (cstr "http://h:8080/x") = Ok (Parsed (cstr "h") 8080 13)
  ∧ parse_url (cstr "http://example.com/a/b")
    = Ok (Parsed (cstr "example.com") 80 18).
Proof.
  split.
  - refine (proj1 (proj1 (parse_url_well_formed (cstr "h") (cstr "x") _ _)
                     (cstr "8080") _ _)).
    + apply strchr_None. reflexivity.
    + unfold SERVER_NAME_SIZE. simpl. lia.
    + repeat constructor.
    + vm_compute. discriminate.
  - refine (proj1 (proj2 (parse_url_well_formed (cstr "example.com")
                            (cstr "a/b") _ _) _ _)).
    + apply strchr_None. reflexivity.
    + unfold SERVER_NAME_SIZE. simpl. lia.
    + apply strchr_None. reflexivity.
    + apply strchr_None. reflexivity.
Defined.

Lemma to_u16_range (z : Z) : (0 ≤ to_u16 z ≤ 65535)%Z.
Proof. unfold to_u16. pose proof (Z.mod_pos_bound z 65536). lia. Qed.

Lemma parse_url_port_range (url : cstring) (r : parsed_url) :
  parse_url url = Ok r → (0 ≤ port r ≤ 65535)%Z.
Proof.
  unfold parse_url. intros H.
  destruct (strstr url (cstr "http://")) as [p0|]; [|discriminate].
  destruct (match strchr _ ":" with Some k => _ | None => _ end);
    [|discriminate].
  case_bool_decide; [discriminate|].
  destruct (Ascii.eqb _ ":").
  - destruct (simple_strtol _) as [lport consumed].
    destruct (negb _); [discriminate|].
    destruct (_ <? _)%Z; [discriminate|].
    injection H as <-. apply to_u16_range.
  - destruct (negb _); [discriminate|].
    injection H as <-. unfold HTTP_PORT_DEFAULT. simpl. lia.
Qed.

Lemma host_delimiter_no_colon (s : cstring) (j : nat) :
  host_delimiter s = Some j → ":"%char ∉ take j s.
Proof.
  unfold host_delimiter. intros H.
  destruct (strchr s ":") as [i|] eqn:Hc.
  - injection H as ->. by apply strchr_Some in Hc as (_ & _ & ?).
  - apply strchr_None in Hc. intros Hin. apply Hc.
    by apply (subseteq_take j s).
Qed.

Lemma char_at_inside (s : cstring) (k : nat) (c : ascii) :
  char_at s k = c → c ≠ NUL → k < length s ∧ drop k s = c :: drop (S k) s.
Proof.
  intros Hc Hne. unfold char_at in Hc.
  destruct (decide (k < length s)) as [Hlt|Hge].
  - split; [done|].
    destruct (lookup_lt_is_Some_2 s k Hlt) as [x Hx].
    rewrite (nth_lookup_Some s k NUL x Hx) in Hc. subst x.
    by apply drop_S.
  - rewrite nth_overflow in Hc by lia. congruence.
Qed.

(** A successful parse yields a host shorter than [SERVER_NAME_SIZE] and
    free of ':', taken from the text after the scheme; a port in 0..65535;
    and a path that lies in the URL, after the host, and begins with '/'. *)
Theorem parse_url_ok_shape (url : cstring) (r : parsed_url) :
  parse_url url = Ok r →
  length (host r) < SERVER_NAME_SIZE
  ∧ (":"%char ∉ host r)
  ∧ (0 ≤ port r ≤ 65535)%Z
  ∧ path r < length url
  ∧ (∃ rest, path_string url r = "/"%char :: rest)
  ∧ (∃ p0, strstr url (cstr "http://") = Some p0
           ∧ host r = take (length (host r)) (drop (p0 + 7) url)
           ∧ p0 + 7 + length (host r) ≤ path r).
Proof.
  intros H. pose proof (parse_url_port_range url r H) as Hport.
  apply parse_url_Ok_inv in H as (p0 & j & Hs & Hj & Hlt & Hh & Hlen & Hp & Hc).
  destruct (char_at_inside url (path r) "/" Hc) as [Hin Hdrop]; [done|].
  split; [lia|]. split.
  { rewrite Hh. by apply host_delimiter_no_colon. }
  split; [done|]. split; [done|]. split.
  { exists (drop (S (path r)) url). exact Hdrop. }
  exists p0. rewrite Hlen. split; [done|]. split; [done|lia].
Qed.

Lemma parse_url_ok_shape_witness :
  length (cstr "h") < SERVER_NAME_SIZE
  ∧ (":"%char ∉ cstr "h")
  ∧ (0 ≤ 8080 ≤ 65535)%Z
  ∧ 13 < length (cstr "http://h:8080/x")
  ∧ (∃ rest, drop 13 (cstr "http://h:8080/x") = "/"%char :: rest)
  ∧ (∃ p0, strstr (cstr "http://h:8080/x") (cstr "http://") = Some p0
           ∧ cstr "h" = take 1 (drop (p0 + 7) (cstr "http://h:8080/x"))
           ∧ p0 + 7 + 1 ≤ 13).
Proof.
  exact (parse_url_ok_shape (cstr "http://h:8080/x")
           (Parsed (cstr "h") 8080 13) eq_refl).
Defined.

Lemma parse_url_no_delimiter (url : cstring) :
  parse_url url = Err No_host_delimiter →
  ∃ p0, strstr url (cstr "http://") = Some p0
        ∧ host_delimiter (drop (p0 + 7) url) = None.
Proof.
  unfold parse_url, host_delimiter. intros H.
  destruct (strstr url (cstr "http://")) as [p0|]; [|discriminate].
  change (strlen (cstr "http://")) with 7 in H. exists p0. split; [done|].
  destruct (strchr (drop (p0 + 7) url) ":") as [k|].
  - exfalso. case_bool_decide; [discriminate|].
    destruct (Ascii.eqb _ ":").
    + destruct (simple_strtol _). destruct (negb _); [discriminate|].
      destruct (_ <? _)%Z; discriminate.
    + destruct (negb _); discriminate.
  - destruct (strchr (drop (p0 + 7) url) "/") as [k|]; [|done].
    exfalso. simpl in H. case_bool_decide; [discriminate|].
    destruct (Ascii.eqb _ ":").
    + destruct (simple_strtol _). destruct (negb _); [discriminate|].
      destruct (_ <? _)%Z; discriminate.
    + destruct (negb _); discriminate.
Qed.

(** ** The validator and the parser together *)

(** What an accepted URI went through. *)
Lemma wget_validate_uri_true_inv (malloc_ok : bool) (uri : cstring) :
  wget_validate_uri malloc_ok uri = true →
  starts_with (cstr "http://") uri = true
  ∧ ∃ k, strchr (drop 7 uri) "/" = Some k
         ∧ strchr (take k (drop 7 uri)) "@" = None.
Proof.
  unfold wget_validate_uri. intros H.
  destruct (existsb _ (seq 1 32)); [discriminate|].
  destruct (has_char uri (ascii_of_nat 127)); [discriminate|].
  destruct (Z.eqb_spec (strncmp uri (cstr "http://") 7) 0) as [H0|H0];
    simpl in H; [|discriminate].
  split.
  { apply (strncmp_starts_with (cstr "http://") uri); [|exact H0].
    apply no_nul_check. reflexivity. }
  destruct malloc_ok; simpl in H; [|discriminate].
  change (strlen (cstr "http://")) with 7 in H.
  unfold strsep in H. change (cstr "/") with ["/"%char] in H.
  rewrite strpbrk_single in H.
  destruct (strchr (drop 7 uri) "/") as [k|]; [|discriminate].
  exists k. split; [done|].
  by destruct (strchr (take k (drop 7 uri)) "@").
Qed.

Lemma drop_scheme (r : cstring) (uri : cstring) :
  uri = cstr "http://" ++ r → drop 7 uri = r.
Proof. by intros ->. Qed.

(** A URI that the validator accepts is "http://" authority "/" rest with
    neither '/' nor '@' in the authority; [parse_url] finds the scheme and
    a delimiter in it; and when it holds no ':' after the scheme,
    [parse_url] returns the authority as the host, port 80 and the path
    from the '/' on if the authority is shorter than [SERVER_NAME_SIZE],
    and fails on the length of the host if not. *)
Theorem wget_validate_uri_then_parse_url (malloc_ok : bool) (uri : cstring) :
  wget_validate_uri malloc_ok uri = true →
  ∃ authority rest,
    uri = cstr "http://" ++ authority ++ "/"%char :: rest
    ∧ ("/"%char ∉ authority) ∧ ("@"%char ∉ authority)
    ∧ parse_url uri ≠ Err Unsupported_scheme
    ∧ parse_url uri ≠ Err No_host_delimiter
    ∧ ((":"%char ∉ authority) → (":"%char ∉ rest) →
       parse_url uri =
         if bool_decide (length authority < SERVER_NAME_SIZE)
         then Ok (Parsed authority HTTP_PORT_DEFAULT (7 + length authority))
         else Err Host_too_long).
Proof.
  intros H. apply wget_validate_uri_true_inv in H as (Hpre & k & Hk & Hat).
  apply starts_with_spec in Hpre as [r Hr].
  pose proof (drop_scheme r uri Hr) as Hd. rewrite Hd in Hk, Hat.
  pose proof (strchr_split _ _ _ Hk) as [Hsplit Hslash].
  exists (take k r), (drop (S k) r).
  assert (Huri : uri = cstr "http://" ++ take k r ++ "/"%char :: drop (S k) r)
    by (by rewrite <- Hsplit).
  assert (Hstr : strstr uri (cstr "http://") = Some 0)
    by (rewrite Hr; apply strstr_app).
  split; [done|]. split; [done|]. split; [by apply strchr_None|].
  split.
  { intros He. apply parse_url_unsupported_scheme in He. congruence. }
  split.
  { intros He. apply parse_url_no_delimiter in He as (p0 & Hp0 & Hnone).
    rewrite Hstr in Hp0. injection Hp0 as <-.
    change (0 + 7) with 7 in Hnone. rewrite Hd in Hnone.
    unfold host_delimiter in Hnone.
    destruct (strchr r ":"); [discriminate|congruence]. }
  intros Hc1 Hc2. case_bool_decide as Hlen.
  - rewrite Huri. by apply parse_url_default_port.
  - assert (Hnone : strchr r ":" = None).
    { apply strchr_None. rewrite Hsplit, elem_of_app, elem_of_cons.
      intros [?|[?|?]]; done. }
    pose proof (strchr_Some _ _ _ Hk) as (Hklt & _ & _).
    unfold parse_url. rewrite Hstr.
    change (strlen (cstr "http://")) with 7. change (0 + 7) with 7.
    rewrite Hd, Hnone, Hk. cbn [fmap option_fmap option_map].
    rewrite length_take in Hlen. rewrite bool_decide_true; [done|].
    unfold SERVER_NAME_SIZE in *. lia.
Qed.

Lemma wget_validate_uri_then_parse_url_witness :
  ∃ authority rest,
    cstr "http://example.com/a/b" = cstr "http://" ++ authority ++ "/"%char :: rest
    ∧ ("/"%char ∉ authority) ∧ ("@"%char ∉ authority)
    ∧ parse_url (cstr "http://example.com/a/b") ≠ Err Unsupported_scheme
    ∧ parse_url (cstr "http://example.com/a/b") ≠ Err No_host_delimiter
    ∧ ((":"%char ∉ authority) → (":"%char ∉ rest) →
       parse_url (cstr "http://example.com/a/b") =
         if bool_decide (length authority < SERVER_NAME_SIZE)
         then Ok (Parsed authority HTTP_PORT_DEFAULT (7 + length authority))
         else Err Host_too_long).
Proof.
  exact (wget_validate_uri_then_parse_url true (cstr "http://example.com/a/b")
           eq_refl).
Defined.

(** ** Further properties of the legacy argument normalizer *)

(** "http://a/b" with room, with a capacity of its length, and with less. *)
Lemma parse_legacy_arg_verbatim_witness :
  (∃ buf, parse_legacy_arg ∅ (cstr "http://a/b") (replicate 16 "x"%char) 16
          = (0%Z, buf) ∧ c_str buf = cstr "http://a/b")
  ∧ (∃ buf, parse_legacy_arg ∅ (cstr "http://a/b") (replicate 16 "x"%char) 10
            = (0%Z, buf) ∧ c_str buf = cstr "http://a/")
  ∧ (parse_legacy_arg ∅ (cstr "http://a/b") (replicate 16 "x"%char) 9).1
    = (-1)%Z.
Proof.
  assert (Hn : NUL ∉ cstr "http://a/b") by (apply no_nul_check; reflexivity).
  split; [|split].
  - refine (proj1 (parse_legacy_arg_verbatim ∅ (cstr "http://a/b")
                     (replicate 16 "x"%char) 16 eq_refl Hn _) _);
      simpl; lia.
  - refine (proj1 (proj2 (parse_legacy_arg_verbatim ∅ (cstr "http://a/b")
                     (replicate 16 "x"%char) 10 eq_refl Hn _)) _);
      simpl; lia.
  - refine (proj2 (proj2 (parse_legacy_arg_verbatim ∅ (cstr "http://a/b")
                     (replicate 16 "x"%char) 9 eq_refl Hn _)) _);
      simpl; lia.
Defined.

Lemma store_within (buf bs : list ascii) (off cap : nat) :
  off + length bs ≤ cap → cap ≤ length buf →
  length (store buf off bs) = length buf
  ∧ drop cap (store buf off bs) = drop cap buf.
Proof.
  intros H1 H2. split; [apply length_store; lia|].
  unfold store.
  rewrite drop_app_ge by (rewrite length_take; lia).
  rewrite length_take, drop_app_ge by lia.
  rewrite drop_drop. f_equal. lia.
Qed.

Lemma store_lookup (buf bs : list ascii) (off i : nat) :
  off ≤ length buf → (store buf off bs) !! (off + i) = (bs ++ drop (off + length bs) buf) !! i.
Proof.
  intros H. unfold store.
  rewrite lookup_app_r by (rewrite length_take; lia).
  rewrite length_take. f_equal. lia.
Qed.

(** A NUL in an array ends the string it holds. *)
Lemma c_str_terminated (buf : list ascii) (k : nat) :
  buf !! k = Some NUL → length (c_str buf) ≤ k.
Proof.
  revert k. induction buf as [|a buf IH]; intros k H; [done|].
  simpl. destruct (Ascii.eqb_spec a NUL) as [->|Hne]; [simpl; lia|].
  destruct k as [|k]; simpl in H; [congruence|].
  simpl. apply IH in H. lia.
Qed.

Lemma length_strncpy_bytes (src : cstring) (n : nat) :
  length (take n src ++ replicate (n - length src) NUL) = n.
Proof. rewrite length_app, length_take, length_replicate. lia. Qed.

Lemma store_kept (nurl buf bs : list ascii) (off cap : nat) :
  off + length bs ≤ cap → cap ≤ length nurl →
  length buf = length nurl ∧ drop cap buf = drop cap nurl →
  length (store buf off bs) = length nurl
  ∧ drop cap (store buf off bs) = drop cap nurl.
Proof.
  intros H1 H2 [Hl Hd].
  destruct (store_within buf bs off cap) as [Hl' Hd']; [lia|lia|].
  by rewrite Hl', Hd', Hl, Hd.
Qed.

Lemma store_nul_terminated (buf : list ascii) (off : nat) :
  off ≤ length buf → length (c_str (store buf off [NUL])) ≤ off.
Proof.
  intros H. apply c_str_terminated.
  replace off with (off + 0) at 1 by lia. by rewrite store_lookup.
Qed.

Lemma compose_kept (nurl buf : list ascii) (p rem n cap : nat)
    (server path : cstring) :
  p + rem ≤ cap → cap ≤ length nurl →
  length buf = length nurl ∧ drop cap buf = drop cap nurl →
  kept_within nurl cap (compose buf p rem n server path).
Proof.
  intros Hp Hcap Hbuf. unfold compose, strncpy, strlen, kept_within.
  pose proof (length_strncpy_bytes server n) as L1.
  pose proof (length_strncpy_bytes path (length path)) as L3.
  case_bool_decide as C1; [cbn [fst snd]; by intuition|].
  set (b1 := store buf p _).
  assert (K1 : length b1 = length nurl ∧ drop cap b1 = drop cap nurl).
  { apply store_kept; [lia|done|done]. }
  case_bool_decide as C2; [cbn [fst snd]; by intuition|].
  set (b2 := store b1 (p + n) _).
  assert (K2 : length b2 = length nurl ∧ drop cap b2 = drop cap nurl).
  { apply store_kept; [simpl; lia|done|done]. }
  case_bool_decide as C3; [cbn [fst snd]; by intuition|].
  set (b3 := store b2 (p + n + 1) _).
  assert (K3 : length b3 = length nurl ∧ drop cap b3 = drop cap nurl).
  { apply store_kept; [lia|done|done]. }
  case_bool_decide as C4; [cbn [fst snd]; by intuition|].
  cbn [fst snd].
  destruct (store_kept nurl b3 [NUL] (p + n + 1 + length path) cap)
    as [K4 K4']; [simpl; lia|done|done|].
  split; [by left|]. split; [done|]. split; [done|]. intros _.
  pose proof (store_nul_terminated b3 (p + n + 1 + length path)) as Ht.
  destruct K3 as [K3 _]. lia.
Qed.

(** Whatever the argument, the environment and the capacity within the
    array: [parse_legacy_arg] returns 0 or -1, stores nothing outside the
    first [rem] cells of the array, and after a success the array holds a
    string that ends within those cells. *)
Theorem parse_legacy_arg_in_bounds (env : gmap string cstring) (arg : cstring)
    (nurl : list ascii) (rem : nat) :
  rem ≤ length nurl →
  kept_within nurl rem (parse_legacy_arg env arg nurl rem).
Proof.
  intros Hcap.
  destruct (decide (strstr arg (cstr "http") = Some 0)) as [Hhttp|Hhttp].
  - assert (Hpos : 4 ≤ length arg).
    { apply strstr_zero, starts_with_spec in Hhttp as [r ->].
      rewrite length_app. simpl. lia. }
    unfold parse_legacy_arg, snprintf_s, strlen, kept_within.
    rewrite bool_decide_true by done.
    destruct rem as [|k].
    { rewrite bool_decide_true by lia. cbn [fst snd]. by intuition. }
    assert (Hlen : length (take k arg ++ [NUL]) ≤ S k).
    { rewrite length_app, length_take. simpl. lia. }
    destruct (store_kept nurl nurl (take k arg ++ [NUL]) 0 (S k))
      as [K K']; [lia|done|done|].
    assert (Ht : length (c_str (store nurl 0 (take k arg ++ [NUL]))) < S k).
    { assert (Hnul : store nurl 0 (take k arg ++ [NUL])
                       !! (0 + length (take k arg)) = Some NUL).
      { rewrite store_lookup by lia. rewrite <- app_assoc.
        by rewrite lookup_app_r, Nat.sub_diag by lia. }
      apply c_str_terminated in Hnul. rewrite length_take in *. lia. }
    case_bool_decide; cbn [fst snd]; by intuition.
  - destruct (decide (rem < 7)) as [Hsmall|Hroom].
    + pose proof (parse_legacy_arg_no_room env arg nurl rem Hhttp Hsmall) as Hrc.
      unfold parse_legacy_arg, snprintf_s in *.
      rewrite bool_decide_false in * by done.
      change (strlen (cstr "http://")) with 7 in *.
      rewrite bool_decide_true in * by lia.
      unfold kept_within. cbn [fst snd]. split; [by right|].
      destruct rem as [|k]; [by intuition|].
      destruct (store_kept nurl nurl (take k (cstr "http://") ++ [NUL]) 0 (S k))
        as [K K']; [|done|done|by intuition].
      rewrite length_app, length_take. simpl. lia.
    + rewrite parse_legacy_arg_compose by (done || lia). cbv zeta.
      set (b0 := store nurl 0 _).
      assert (K0 : length b0 = length nurl ∧ drop rem b0 = drop rem nurl).
      { apply store_kept; [|done|done].
        rewrite length_app, length_take. simpl. lia. }
      destruct (strchr arg ":") as [c|].
      { apply compose_kept; [lia|done|done]. }
      destruct (fallback_host env) as [v|].
      { apply compose_kept; [lia|done|done]. }
      unfold kept_within. cbn [fst snd]. by intuition.
Qed.

(** A URL of 24 characters composed into 24 cells of an array of 80. *)
Lemma parse_legacy_arg_in_bounds_witness :
  kept_within (replicate 80 "x"%char) 24
    (parse_legacy_arg ∅ (cstr "host:path/to/file") (replicate 80 "x"%char) 24).
Proof.
  apply parse_legacy_arg_in_bounds. simpl. lia.
Defined.

(** The normalizer on "host:path". *)
Lemma parse_legacy_arg_colon (env : gmap string cstring) (h p : cstring)
    (nurl : list ascii) (rem : nat) :
  starts_with (cstr "http") (h ++ ":"%char :: p) = false →
  NUL ∉ h → NUL ∉ p → ":"%char ∉ h → rem ≤ length nurl →
  normalizes_to env (h ++ ":"%char :: p) nurl rem
    (cstr "http://" ++ h ++ "/"%char :: p).
Proof.
  intros Hhttp Hnh Hnp Hh Hcap.
  assert (Hstr : strstr (h ++ ":"%char :: p) (cstr "http") ≠ Some 0).
  { rewrite strstr_zero. congruence. }
  pose proof (normalizes_to_compose env (h ++ ":"%char :: p) nurl rem
                (length h) (h ++ ":"%char :: p) p Hstr Hcap) as Hc.
  rewrite take_app_length in Hc. apply Hc; try done.
  - intros Hrem. rewrite parse_legacy_arg_compose by done. cbv zeta.
    rewrite strchr_app by done. do 2 f_equal.
    rewrite (cons_middle ":"%char h), app_assoc. apply drop_prefix.
    rewrite length_app. reflexivity.
  - rewrite length_app. lia.
Qed.

(** The normalizer on a path, with the host that the environment gives. *)
Lemma parse_legacy_arg_fallback_host (env : gmap string cstring)
    (arg v : cstring) (nurl : list ascii) (rem : nat) :
  starts_with (cstr "http") arg = false → ":"%char ∉ arg →
  fallback_host env = Some v →
  NUL ∉ arg → NUL ∉ v → rem ≤ length nurl →
  normalizes_to env arg nurl rem (cstr "http://" ++ v ++ "/"%char :: arg).
Proof.
  intros Hhttp Hcolon Hv Hna Hnv Hcap.
  assert (Hstr : strstr arg (cstr "http") ≠ Some 0).
  { rewrite strstr_zero. congruence. }
  pose proof (normalizes_to_compose env arg nurl rem
                (length v) v arg Hstr Hcap) as Hc.
  rewrite firstn_all in Hc. apply Hc; try done.
  intros Hrem. rewrite parse_legacy_arg_compose by done. cbv zeta.
  apply strchr_None in Hcolon. by rewrite Hcolon, Hv.
Qed.

(** The normalizer followed by the parser.  For "host:path" that does not
    begin with "http", with a host free of '/' and shorter than
    [SERVER_NAME_SIZE], a path free of ':', and room in the array: the URL
    that [parse_legacy_arg] leaves is parsed by [parse_url] to that host,
    port 80 and the path "/" path.  For a path without ':' the same holds
    with the host that "httpserverip" or else "serverip" gives, when that
    host holds neither ':' nor '/'. *)
Theorem parse_legacy_arg_then_parse_url (env : gmap string cstring)
    (host_ path_ : cstring) (nurl : list ascii) (rem : nat) :
  NUL ∉ host_ → NUL ∉ path_ →
  ":"%char ∉ host_ → "/"%char ∉ host_ → ":"%char ∉ path_ →
  length host_ < SERVER_NAME_SIZE →
  7 + length host_ + 1 + length path_ < rem → rem ≤ length nurl →
  ∀ arg,
    starts_with (cstr "http") arg = false →
    arg = host_ ++ ":"%char :: path_
    ∨ (arg = path_ ∧ fallback_host env = Some host_) →
    ∃ buf, parse_legacy_arg env arg nurl rem = (0%Z, buf)
           ∧ parse_url (c_str buf)
             = Ok (Parsed host_ HTTP_PORT_DEFAULT (7 + length host_))
           ∧ path_string (c_str buf)
               (Parsed host_ HTTP_PORT_DEFAULT (7 + length host_))
             = "/"%char :: path_.
Proof.
  intros Hnh Hnp Hch Hsh Hcp Hlen Hfit Hcap arg Hhttp Harg.
  assert (Hn : normalizes_to env arg nurl rem
                 (cstr "http://" ++ host_ ++ "/"%char :: path_)).
  { destruct Harg as [->|[-> Hv]].
    - by apply parse_legacy_arg_colon.
    - by apply parse_legacy_arg_fallback_host. }
  destruct Hn as [Hok _].
  destruct Hok as (buf & Hbuf & Hstr & _).
  { rewrite !length_app. simpl. lia. }
  exists buf. split; [done|]. rewrite Hstr.
  by apply parse_url_default_port.
Qed.

(** "host:path/to/file", and "myfile.img" with "serverip" set. *)
Lemma parse_legacy_arg_then_parse_url_witness :
  (∃ buf, parse_legacy_arg ∅ (cstr "host:path/to/file") (replicate 64 NUL) 64
          = (0%Z, buf)
          ∧ parse_url (c_str buf) = Ok (Parsed (cstr "host") 80 11)
          ∧ path_string (c_str buf) (Parsed (cstr "host") 80 11)
            = cstr "/path/to/file")
  ∧ (∃ buf, parse_legacy_arg {[ "serverip"%string := cstr "10.0.0.1" ]}
              (cstr "myfile.img") (replicate 64 NUL) 64 = (0%Z, buf)
            ∧ parse_url (c_str buf) = Ok (Parsed (cstr "10.0.0.1") 80 15)
            ∧ path_string (c_str buf) (Parsed (cstr "10.0.0.1") 80 15)
              = cstr "/myfile.img").
Proof.
  split.
  - refine (parse_legacy_arg_then_parse_url ∅ (cstr "host")
              (cstr "path/to/file") (replicate 64 NUL) 64
              _ _ _ _ _ _ _ _ (cstr "host:path/to/file") eq_refl _).
    + apply no_nul_check. reflexivity.
    + apply no_nul_check. reflexivity.
    + apply strchr_None. reflexivity.
    + apply strchr_None. reflexivity.
    + apply strchr_None. reflexivity.
    + unfold SERVER_NAME_SIZE. simpl. lia.
    + simpl. lia.
    + simpl. lia.
    + left. reflexivity.
  - refine (parse_legacy_arg_then_parse_url
              {[ "serverip"%string := cstr "10.0.0.1" ]} (cstr "10.0.0.1")
              (cstr "myfile.img") (replicate 64 NUL) 64
              _ _ _ _ _ _ _ _ (cstr "myfile.img") eq_refl _).
    + apply no_nul_check. reflexivity.
    + apply no_nul_check. reflexivity.
    + apply strchr_None. reflexivity.
    + apply strchr_None. reflexivity.
    + apply strchr_None. reflexivity.
    + unfold SERVER_NAME_SIZE. simpl. lia.
    + simpl. lia.
    + simpl. lia.
    + right. split; reflexivity.
Defined.

(** ** Further properties of the response sink *)

Lemma memcpy_lookup_outside (m : gmap Z ascii) (dst a : Z) (bs : list ascii) :
  (a < dst ∨ dst + Z.of_nat (length bs) ≤ a)%Z →
  memcpy m dst bs !! a = m !! a.
Proof.
  revert m dst. induction bs as [|b bs IH]; intros m dst H; simpl; [done|].
  rewrite IH by (simpl length in H; lia).
  apply lookup_insert_ne. simpl length in H. lia.
Qed.

Lemma memcpy_lookup_inside (m : gmap Z ascii) (dst : Z) (bs : list ascii)
    (i : nat) (b : ascii) :
  bs !! i = Some b → memcpy m dst bs !! (dst + Z.of_nat i)%Z = Some b.
Proof.
  revert m dst i. induction bs as [|x bs IH]; intros m dst i H; [done|].
  change (memcpy m dst (x :: bs)) with (memcpy (<[dst:=x]> m) (dst + 1) bs).
  destruct i as [|i]; simpl in H.
  - injection H as ->. rewrite memcpy_lookup_outside by lia.
    rewrite Z.add_0_r. apply lookup_insert_eq.
  - rewrite Nat2Z.inj_succ.
    replace (dst + Z.succ (Z.of_nat i))%Z
      with (dst + 1 + Z.of_nat i)%Z by lia.
    by apply IH.
Qed.

Lemma recv_buf_same_request (st : state) (payload : list ascii) :
  same_request st (recv_buf st payload)
  ∧ ctx_start_time (ctx (recv_buf st payload)) = ctx_start_time (ctx st).
Proof. unfold recv_buf, same_request. by destruct (_ <? _)%Z. Qed.

Lemma fold_recv_buf_same_request (p : pbuf) (st : state) :
  same_request st (fold_left recv_buf p st)
  ∧ ctx_start_time (ctx (fold_left recv_buf p st)) = ctx_start_time (ctx st).
Proof.
  revert st. induction p as [|payload p IH]; intros st; simpl; [done|].
  destruct (IH (recv_buf st payload)) as [[H1 H2] H3].
  destruct (recv_buf_same_request st payload) as [[H4 H5] H6].
  unfold same_request. by rewrite H1, H2, H3, H4, H5, H6.
Qed.

Lemma httpc_recv_cb_same_request (timer : Z) (p : pbuf) (st : state) :
  same_request st (httpc_recv_cb timer p st).2.
Proof.
  destruct p as [|payload p]; [done|]. unfold httpc_recv_cb. cbn [snd].
  change (ctx (emit ?e (emit ?e' ?s))) with (ctx s).
  set (st0 := if (_ =? 0)%Z then _ else st).
  destruct (fold_recv_buf_same_request (payload :: p) st0) as [[H1 H2] _].
  unfold same_request. change (ctx (emit ?e (emit ?e' ?s))) with (ctx s).
  rewrite H1, H2. unfold st0. by destruct (_ =? 0)%Z.
Qed.

(** After a call of [httpc_recv_cb] the memory holds the bytes of the
    chain, in order, from the write cursor on, and is unchanged everywhere
    else; the cursor and the byte counter have advanced by their number;
    the path, the saved address and the status are as they were; and the
    start time is the timer read during the call if it was 0 and the chain
    is not NULL, and as it was otherwise. *)
Theorem httpc_recv_cb_effect (timer : Z) (p : pbuf) (st : state) :
  room st (length (concat p)) →
  let st' := (httpc_recv_cb timer p st).2 in
  let d := ctx_daddr (ctx st) in
  let n := Z.of_nat (length (concat p)) in
  (∀ i b, concat p !! i = Some b → mem st' !! (d + Z.of_nat i)%Z = Some b)
  ∧ (∀ a, (a < d ∨ d + n ≤ a)%Z → mem st' !! a = mem st !! a)
  ∧ ctx_daddr (ctx st') = wrap_ulong (d + n)
  ∧ ctx_size (ctx st') = wrap_ulong (ctx_size (ctx st) + n)
  ∧ same_request st st'
  ∧ ctx_done (ctx st') = ctx_done (ctx st)
  ∧ ctx_start_time (ctx st')
    = (if (ctx_start_time (ctx st) =? 0)%Z
       then match p with [] => 0%Z | _ :: _ => timer end
       else ctx_start_time (ctx st)).
Proof.
  intros Hroom st' d n.
  destruct (httpc_recv_cb_appended timer p st Hroom) as (Hm & Hd & Hs).
  fold st' in Hm, Hd, Hs.
  split. { intros i b Hi. rewrite Hm. by apply memcpy_lookup_inside. }
  split. { intros a Ha. rewrite Hm. by apply memcpy_lookup_outside. }
  split; [done|]. split; [done|].
  split; [apply httpc_recv_cb_same_request|].
  split; [apply httpc_recv_cb_trace|].
  unfold st'. destruct p as [|payload p].
  { simpl. by destruct (Z.eqb_spec (ctx_start_time (ctx st)) 0). }
  unfold httpc_recv_cb. cbn [snd].
  change (ctx (emit ?e (emit ?e' ?s))) with (ctx s).
  set (st0 := if (_ =? 0)%Z then _ else st).
  rewrite (proj2 (fold_recv_buf_same_request (payload :: p) st0)).
  unfold st0. by destruct (_ =? 0)%Z.
Qed.

(** Two buffers of a chain delivered at address 4096. *)
Lemma httpc_recv_cb_effect_witness :
  let st := State (Wget_ctx (cstr "/f") 4096 4096 0 0 0 NOT_DONE) ∅ [] in
  let st' := (httpc_recv_cb 7 [cstr "he"; cstr "llo"] st).2 in
  mem st' !! 4100%Z = Some "o"%char
  ∧ mem st' !! 4101%Z = None
  ∧ ctx_size (ctx st') = 5%Z
  ∧ ctx_start_time (ctx st') = 7%Z.
Proof.
  intros st st'.
  destruct (httpc_recv_cb_effect 7 [cstr "he"; cstr "llo"] st)
    as (Hin & Hout & _ & Hs & _ & _ & Ht).
  - unfold room, is_ulong, BITS_PER_LONG. cbn [ctx ctx_daddr ctx_size st].
    simpl length. lia.
  - split; [exact (Hin 4 "o"%char eq_refl)|].
    split; [rewrite Hout; [reflexivity|right; simpl; lia]|].
    split; [exact Hs|exact Ht].
Defined.

(** ** Further properties of the finalizer and of the driver *)

Lemma grows_refl (st : state) : grows st st.
Proof. exists []. by rewrite app_nil_r. Qed.

Lemma grows_trans (st1 st2 st3 : state) :
  grows st1 st2 → grows st2 st3 → grows st1 st3.
Proof.
  intros (e1 & H1 & F1) (e2 & H2 & F2). exists (e1 ++ e2).
  rewrite H2, H1, app_assoc. split; [done|]. by apply Forall_app.
Qed.

Lemma grows_emit (ev : event) (st : state) :
  is_setup ev = false → grows st (emit ev st).
Proof. intros H. exists [ev]. split; [done|]. by constructor. Qed.

Lemma grows_same_trace (st st' : state) : trace st' = trace st → grows st st'.
Proof. intros H. exists []. by rewrite app_nil_r. Qed.

Lemma recv_buf_grows (st : state) (payload : list ascii) :
  grows st (recv_buf st payload).
Proof.
  unfold recv_buf. destruct (_ <? _)%Z.
  - exists [Print_hash]. split; [done|]. by constructor.
  - by apply grows_same_trace.
Qed.

Lemma fold_recv_buf_grows (p : pbuf) (st : state) :
  grows st (fold_left recv_buf p st).
Proof.
  revert st. induction p as [|payload p IH]; intros st; simpl.
  - apply grows_refl.
  - eapply grows_trans; [apply recv_buf_grows|apply IH].
Qed.

Lemma httpc_recv_cb_grows (timer : Z) (p : pbuf) (st : state) :
  grows st (httpc_recv_cb timer p st).2.
Proof.
  destruct p as [|payload p]; [apply grows_refl|].
  unfold httpc_recv_cb. cbn [snd].
  set (st0 := if (_ =? 0)%Z then _ else st).
  assert (H0 : grows st st0).
  { apply grows_same_trace. unfold st0. by destruct (_ =? 0)%Z. }
  eapply grows_trans; [exact H0|].
  eapply grows_trans; [apply fold_recv_buf_grows|].
  eapply grows_trans; by apply grows_emit.
Qed.

Lemma grows_set_done (d : done_state) (st : state) : grows st (set_done d st).
Proof. by apply grows_same_trace. Qed.

Lemma httpc_result_cb_grows (o : result_oracle)
    (httpc_result rx_content_len srv_res : Z) (st : state) :
  grows st (httpc_result_cb o httpc_result rx_content_len srv_res st).
Proof.
  unfold httpc_result_cb.
  repeat (match goal with |- context [if ?b then _ else _] => destruct b end);
    repeat (first [ apply grows_refl
                  | eapply grows_trans; [|apply grows_set_done]
                  | eapply grows_trans; [|by apply grows_emit] ]).
Qed.

(** The finalizer writes nothing but the status. *)
Lemma httpc_result_cb_frame (o : result_oracle)
    (httpc_result rx_content_len srv_res : Z) (st : state) :
  let st' := httpc_result_cb o httpc_result rx_content_len srv_res st in
  mem st' = mem st
  ∧ ctx_daddr (ctx st') = ctx_daddr (ctx st)
  ∧ ctx_size (ctx st') = ctx_size (ctx st)
  ∧ same_request st st'.
Proof.
  unfold httpc_result_cb, same_request.
  repeat (match goal with |- context [if ?b then _ else _] => destruct b end);
    done.
Qed.

Lemma run_callback_grows (st : state) (cb : callback) :
  grows st (run_callback st cb).
Proof.
  destruct cb; [apply httpc_recv_cb_grows|apply httpc_result_cb_grows].
Qed.

Lemma run_callback_same_request (st : state) (cb : callback) :
  same_request st (run_callback st cb).
Proof.
  destruct cb; [apply httpc_recv_cb_same_request|apply httpc_result_cb_frame].
Qed.

Section Loop_invariant.
Variable P : state → Prop.
Hypothesis P_emit : ∀ ev st, is_setup ev = false → P st → P (emit ev st).
Hypothesis P_callback : ∀ cb st, P st → P (run_callback st cb).

Lemma run_callbacks_invariant (cbs : list callback) (st : state) :
  P st → P (fold_left run_callback cbs st).
Proof.
  revert st. induction cbs as [|cb cbs IH]; intros st H; simpl; [done|].
  by apply IH, P_callback.
Qed.

Lemma after_turn_invariant (p : poll) (st : state) :
  P st → P (after_turn p st).
Proof.
  intros H. unfold after_turn.
  apply P_emit; [done|]. apply run_callbacks_invariant.
  apply P_emit; [done|]. apply run_callbacks_invariant.
  by apply P_emit.
Qed.

(** What the callbacks and the calls of a turn keep, the loop keeps. *)
Lemma poll_loop_invariant (ps : list poll) (st st' : state) :
  P st → poll_loop ps st = Some st' → P st'.
Proof.
  revert st. induction ps as [|p ps IH]; intros st HP H.
  - simpl in H. destruct (ctx_done (ctx st)); congruence.
  - destruct (decide (ctx_done (ctx st) = NOT_DONE)) as [E|E].
    + rewrite poll_loop_unfold in H by done.
      destruct (ctrlc p).
      * injection H as <-. by apply after_turn_invariant.
      * eapply IH; [|exact H]. by apply after_turn_invariant.
    + rewrite poll_loop_done in H by done. congruence.
Qed.
End Loop_invariant.

(** The ways out of [wget_loop]. *)
Lemma wget_loop_inv (e : environment) (dst_addr : Z) (uri : cstring)
    (m : gmap Z ascii) (ret : Z) (st : state) :
  wget_loop e dst_addr uri m = Some (ret, st) →
  (ret = CMD_RET_USAGE ∧ (∃ err, parse_url uri = Err err)
   ∧ st = State (Wget_ctx [] dst_addr dst_addr 0 0 0 NOT_DONE) m [])
  ∨ (∃ r, parse_url uri = Ok r ∧
      ((ret = (-1)%Z ∧ netif_created e = false
        ∧ st = State (Wget_ctx [] dst_addr dst_addr 0 0 0 NOT_DONE) m
                 [Net_lwip_new_netif])
       ∨ (ret = CMD_RET_FAILURE ∧ netif_created e = true
          ∧ httpc_get_file_dns_rc e ≠ 0%Z
          ∧ st = emit Net_lwip_remove_netif (requested dst_addr uri m r))
       ∨ (∃ st1, netif_created e = true ∧ httpc_get_file_dns_rc e = 0%Z
            ∧ poll_loop (polls e) (requested dst_addr uri m r) = Some st1
            ∧ st = emit Net_lwip_remove_netif st1
            ∧ ret = match ctx_done (ctx st1) with
                    | SUCCESS => 0%Z
                    | _ => (-1)%Z
                    end))).
Proof.
  intros H. destruct (parse_url uri) as [r|err] eqn:Hr.
  2:{ unfold wget_loop in H. rewrite Hr in H. injection H as <- <-.
      left. split; [done|]. split; [by exists err|done]. }
  right. exists r. split; [done|].
  destruct (netif_created e) eqn:He.
  2:{ unfold wget_loop in H. rewrite Hr, He in H. injection H as <- <-.
      left. by repeat split. }
  right. rewrite (wget_loop_unfold e dst_addr uri m r Hr He) in H.
  destruct (Z.eqb_spec (httpc_get_file_dns_rc e) 0) as [Hrc|Hrc];
    cbn [negb] in H.
  - right.
    destruct (poll_loop (polls e) (requested dst_addr uri m r))
      as [st1|] eqn:Hloop; [|discriminate].
    exists st1.
    destruct (ctx_done (ctx st1)) eqn:Hd; injection H as <- <-;
      by repeat split.
  - left. injection H as <- <-. by repeat split.
Qed.

Lemma wrap_ulong_add_r (a b : Z) :
  wrap_ulong (a + wrap_ulong b) = wrap_ulong (a + b).
Proof. unfold wrap_ulong. by rewrite Zplus_mod_idemp_r. Qed.

Lemma recv_buf_cursor (dst_addr : Z) (st : state) (payload : list ascii) :
  cursor_inv dst_addr st → cursor_inv dst_addr (recv_buf st payload).
Proof.
  intros [Hs Hd]. destruct (recv_buf_appended st payload) as (_ & Hd' & Hs').
  destruct (recv_buf_same_request st payload) as [[_ Hsv] _].
  unfold cursor_inv. rewrite Hsv, Hd', Hs', Hd, wrap_ulong_add_r.
  split; [done|]. by rewrite wrap_ulong_add.
Qed.

Lemma run_callback_cursor (dst_addr : Z) (cb : callback) (st : state) :
  cursor_inv dst_addr st → cursor_inv dst_addr (run_callback st cb).
Proof.
  destruct cb as [timer p|o a b c]; cbn [run_callback].
  - destruct p as [|payload p]; [done|]. unfold httpc_recv_cb. cbn [snd].
    intros H. unfold cursor_inv.
    change (ctx (emit ?e (emit ?e' ?s))) with (ctx s).
    set (st0 := if (_ =? 0)%Z then _ else st).
    assert (H0 : cursor_inv dst_addr st0).
    { unfold st0. by destruct (_ =? 0)%Z. }
    clearbody st0. clear H. revert st0 H0.
    induction (payload :: p) as [|x xs IH]; intros st0 H0; [done|].
    simpl. apply IH. by apply recv_buf_cursor.
  - intros [Hs Hd].
    destruct (httpc_result_cb_frame o a b c st) as (_ & Hd' & Hs' & _ & Hsv).
    unfold cursor_inv. by rewrite Hsv, Hd', Hs'.
Qed.

(** Whenever [wget_loop] returns, the saved address is the destination
    address it was given and the write cursor is that address plus the
    byte counter, in [ulong] arithmetic. *)
Theorem wget_loop_cursor (e : environment) (dst_addr : Z) (uri : cstring)
    (m : gmap Z ascii) (ret : Z) (st : state) :
  is_ulong dst_addr →
  wget_loop e dst_addr uri m = Some (ret, st) →
  ctx_saved_daddr (ctx st) = dst_addr
  ∧ ctx_daddr (ctx st) = wrap_ulong (dst_addr + ctx_size (ctx st)).
Proof.
  intros Hdst H.
  assert (Hw : wrap_ulong (dst_addr + 0) = dst_addr)
    by (rewrite Z.add_0_r; by apply wrap_ulong_small).
  apply wget_loop_inv in H
    as [(_ & _ & ->)|(r & _ & [(_ & _ & ->)|[(_ & _ & _ & ->)|H]])];
    try (split; cbn; [done|by rewrite Hw]).
  destruct H as (st1 & _ & _ & Hloop & -> & _).
  change (cursor_inv dst_addr st1).
  refine (poll_loop_invariant (cursor_inv dst_addr) _ _ _ _ _ _ Hloop).
  - by intros ev s _ Hinv.
  - intros cb s. apply run_callback_cursor.
  - split; cbn; [done|by rewrite Hw].
Qed.

(** A run that receives two bytes and is then interrupted. *)
Lemma wget_loop_cursor_witness :
  ∃ st, wget_loop (Environment true 0
                     [Poll [Recv_cb 5 [cstr "ab"]] [] false; Poll [] [] true])
          4096 (cstr "http://h/x") ∅ = Some ((-1)%Z, st)
        ∧ ctx_saved_daddr (ctx st) = 4096%Z
        ∧ ctx_daddr (ctx st) = wrap_ulong (4096 + ctx_size (ctx st)).
Proof.
  eexists.
  assert (H : ∀ e ret st,
            wget_loop e 4096 (cstr "http://h/x") ∅ = Some (ret, st) →
            wget_loop e 4096 (cstr "http://h/x") ∅ = Some (ret, st)
            ∧ ctx_saved_daddr (ctx st) = 4096%Z
            ∧ ctx_daddr (ctx st) = wrap_ulong (4096 + ctx_size (ctx st))).
  { intros e ret st Hrun. split; [done|].
    apply (wget_loop_cursor e 4096 (cstr "http://h/x") ∅ ret st); [|done].
    unfold is_ulong, BITS_PER_LONG. lia. }
  apply H. vm_compute. reflexivity.
Defined.

Lemma published_grows (path : cstring) (addr : Z) (st st' : state) :
  grows st st' → published path addr (trace st) →
  published path addr (trace st').
Proof.
  intros (evs & -> & _) (len & H1 & H2 & H3). exists len.
  rewrite !elem_of_app. tauto.
Qed.

Lemma published_inv_emit (path : cstring) (addr : Z) (ev : event) (st : state) :
  is_setup ev = false →
  published_inv path addr st → published_inv path addr (emit ev st).
Proof.
  intros Hev (Hp & Ha & Hd). split; [done|]. split; [done|].
  intros Hs. eapply published_grows; [by apply grows_emit|by apply Hd].
Qed.

Lemma published_inv_callback (path : cstring) (addr : Z) (cb : callback)
    (st : state) :
  published_inv path addr st → published_inv path addr (run_callback st cb).
Proof.
  intros (Hp & Ha & Hd).
  destruct (run_callback_same_request st cb) as [Hp' Ha'].
  split; [congruence|]. split; [congruence|].
  destruct cb as [timer p|o a b c]; cbn [run_callback].
  - rewrite (proj2 (httpc_recv_cb_trace timer p st)). intros Hs.
    eapply published_grows; [apply httpc_recv_cb_grows|by apply Hd].
  - clear Hd Hp' Ha'. unfold httpc_result_cb.
    destruct (negb (a =? HTTPC_RESULT_OK)%Z); [done|].
    destruct (negb (c =? 200)%Z); [done|]. cbv zeta.
    assert (Hctx : ∀ ev s, ctx (emit ev s) = ctx s) by done.
    assert (Hnl : ctx (if (PROGRESS_PRINT_STEP_BYTES <? b)%Z
                       then emit Print_newline st else st) = ctx st)
      by (destruct (_ <? _)%Z; done).
    rewrite !Hctx, Hnl, Hp, Ha.
    destruct (negb (filesize_rc o =? 0)%Z); [done|].
    destruct (negb (fileaddr_rc o =? 0)%Z); [done|].
    intros _. exists b. repeat split; in_trace.
Qed.

(** When [wget_loop] returns 0 the status is SUCCESS and the result has
    been published: the trace holds the registration of the boot device
    with the path of the URL and the destination address, and the setting
    of "filesize", to the length registered, and of "fileaddr", to the
    destination address. *)
Theorem wget_loop_success_published (e : environment) (dst_addr : Z)
    (uri : cstring) (m : gmap Z ascii) (st : state) :
  wget_loop e dst_addr uri m = Some (0%Z, st) →
  ∃ r, parse_url uri = Ok r
       ∧ ctx_done (ctx st) = SUCCESS
       ∧ published (path_string uri r) dst_addr (trace st).
Proof.
  intros H.
  apply wget_loop_inv in H
    as [(? & _)|(r & Hr & [(? & _)|[(? & _)|H]])]; try done.
  destruct H as (st1 & _ & _ & Hloop & -> & Hret).
  exists r. split; [done|].
  destruct (ctx_done (ctx st1)) eqn:Hd; try done.
  split; [done|].
  assert (Hinv : published_inv (path_string uri r) dst_addr st1).
  { refine (poll_loop_invariant _ _ _ _ _ _ _ Hloop).
    - intros ev s. apply published_inv_emit.
    - intros cb s. apply published_inv_callback.
    - by repeat split. }
  destruct Hinv as (_ & _ & Hpub). destruct (Hpub Hd) as (len & H1 & H2 & H3).
  exists len. unfold emit. cbn [trace]. rewrite !elem_of_app. tauto.
Qed.

(** A run that receives two bytes and is finalized with success. *)
Lemma wget_loop_success_published_witness :
  ∃ st r,
    wget_loop (Environment true 0
                 [Poll [Recv_cb 5 [cstr "ab"];
                        Result_cb (Result_oracle 9 0 0) 0 2 200] [] false])
      4096 (cstr "http://h/x") ∅ = Some (0%Z, st)
    ∧ parse_url (cstr "http://h/x") = Ok r
    ∧ ctx_done (ctx st) = SUCCESS
    ∧ published (path_string (cstr "http://h/x") r) 4096 (trace st).
Proof.
  eexists.
  assert (H : ∀ e st, wget_loop e 4096 (cstr "http://h/x") ∅ = Some (0%Z, st) →
            ∃ r, wget_loop e 4096 (cstr "http://h/x") ∅ = Some (0%Z, st)
                 ∧ parse_url (cstr "http://h/x") = Ok r
                 ∧ ctx_done (ctx st) = SUCCESS
                 ∧ published (path_string (cstr "http://h/x") r) 4096 (trace st)).
  { intros e st Hrun.
    destruct (wget_loop_success_published e 4096 (cstr "http://h/x") ∅ st Hrun)
      as (r & ? & ? & ?).
    by exists r. }
  apply H. vm_compute. reflexivity.
Defined.


(** After the creation of the interface, the trace of a run that returns
    is that of the request, then calls that neither set the transfer up
    nor take it down, then the teardown. *)
Lemma wget_loop_created_trace (e : environment) (dst_addr : Z) (uri : cstring)
    (m : gmap Z ascii) (r : parsed_url) (ret : Z) (st : state) :
  parse_url uri = Ok r → netif_created e = true →
  wget_loop e dst_addr uri m = Some (ret, st) →
  ∃ mid,
    trace st =
      Net_lwip_new_netif
      :: Httpc_get_file_dns (host r) (port r) (path_string uri r)
      :: mid ++ [Net_lwip_remove_netif]
    ∧ Forall (λ ev, is_setup ev = false) mid.
Proof.
  intros Hr He H.
  apply wget_loop_inv in H
    as [(_ & (err & Herr) & _)|(r' & Hr' & [(_ & He' & _)|[H|H]])];
    try congruence.
  - rewrite Hr in Hr'. injection Hr' as <-.
    destruct H as (_ & _ & _ & ->). exists []. by split.
  - rewrite Hr in Hr'. injection Hr' as <-.
    destruct H as (st1 & _ & _ & Hloop & -> & _).
    assert (Hg : grows (requested dst_addr uri m r) st1).
    { refine (poll_loop_invariant _ _ _ _ _ _ _ Hloop).
      - intros ev s Hev Hs. eapply grows_trans; [exact Hs|by apply grows_emit].
      - intros cb s Hs. eapply grows_trans; [exact Hs|apply run_callback_grows].
      - apply grows_refl. }
    destruct Hg as (mid & Hmid & Hall). exists mid. split; [|done].
    unfold emit. cbn [trace]. by rewrite Hmid.
Qed.

(** Every return of [wget_loop], by its trace.  A URL that does not parse
    returns CMD_RET_USAGE with no call made and the memory untouched.  When
    no interface is created, -1 is returned after that one call, with no
    request and no teardown.  Otherwise the trace is the creation of the
    interface, one request with the host, the port and the path that
    [parse_url] returned, calls that are neither of these, and last the
    teardown. *)
Theorem wget_loop_trace_shape (e : environment) (dst_addr : Z) (uri : cstring)
    (m : gmap Z ascii) (ret : Z) (st : state) :
  wget_loop e dst_addr uri m = Some (ret, st) →
  match parse_url uri with
  | Err _ => ret = CMD_RET_USAGE ∧ trace st = [] ∧ mem st = m
  | Ok r =>
      if netif_created e then
        ∃ mid,
          trace st =
            Net_lwip_new_netif
            :: Httpc_get_file_dns (host r) (port r) (path_string uri r)
            :: mid ++ [Net_lwip_remove_netif]
          ∧ Forall (λ ev, is_setup ev = false) mid
      else ret = (-1)%Z ∧ trace st = [Net_lwip_new_netif] ∧ mem st = m
  end.
Proof.
  intros H. destruct (parse_url uri) as [r|err] eqn:Hr.
  - destruct (netif_created e) eqn:He.
    + by apply (wget_loop_created_trace e dst_addr uri m r ret st).
    + apply wget_loop_inv in H
        as [(_ & (err & Herr) & _)|(r' & _ & [(-> & _ & ->)|[H|H]])];
        [congruence|done| |].
      * destruct H as (_ & ? & _). congruence.
      * destruct H as (st1 & ? & _). congruence.
  - apply wget_loop_inv in H as [(-> & _ & ->)|(r' & ? & _)];
      [done|congruence].
Qed.

(** A run interrupted in its second turn, and a URL without scheme. *)
Lemma wget_loop_trace_shape_witness :
  (∃ st mid,
     wget_loop (Environment true 0
                  [Poll [Recv_cb 5 [cstr "ab"]] [] false; Poll [] [] true])
       4096 (cstr "http://h/x") ∅ = Some ((-1)%Z, st)
     ∧ trace st =
         Net_lwip_new_netif :: Httpc_get_file_dns (cstr "h") 80 (cstr "/x")
         :: mid ++ [Net_lwip_remove_netif]
     ∧ Forall (λ ev, is_setup ev = false) mid)
  ∧ (∃ st, wget_loop (Environment true 0 []) 4096 (cstr "ftp://h/x") ∅
           = Some (CMD_RET_USAGE, st)
           ∧ trace st = [] ∧ mem st = ∅).
Proof.
  split.
  - eexists.
    assert (H : ∀ e st, wget_loop e 4096 (cstr "http://h/x") ∅
                        = Some ((-1)%Z, st) → netif_created e = true →
              ∃ mid, wget_loop e 4096 (cstr "http://h/x") ∅ = Some ((-1)%Z, st)
                     ∧ trace st =
                         Net_lwip_new_netif
                         :: Httpc_get_file_dns (cstr "h") 80 (cstr "/x")
                         :: mid ++ [Net_lwip_remove_netif]
                     ∧ Forall (λ ev, is_setup ev = false) mid).
    { intros e st Hrun He.
      pose proof (wget_loop_trace_shape e 4096 (cstr "http://h/x") ∅ _ st Hrun)
        as Hs.
      change (parse_url (cstr "http://h/x")) with
        (@Ok parse_url_error _ (Parsed (cstr "h") 80 8)) in Hs.
      cbv iota in Hs. rewrite He in Hs. destruct Hs as (mid & ? & ?).
      by exists mid. }
    apply H; [vm_compute; reflexivity|reflexivity].
  - eexists. split; [vm_compute; reflexivity|].
    assert (H : ∀ st, wget_loop (Environment true 0 []) 4096 (cstr "ftp://h/x") ∅
                      = Some (CMD_RET_USAGE, st) → trace st = [] ∧ mem st = ∅).
    { intros st Hrun.
      pose proof (wget_loop_trace_shape _ 4096 (cstr "ftp://h/x") ∅ _ st Hrun)
        as Hs.
      change (parse_url (cstr "ftp://h/x")) with
        (@Err parse_url_error parsed_url Unsupported_scheme) in Hs.
      cbv iota in Hs. tauto. }
    apply H. vm_compute. reflexivity.
Defined.








(** ** The command *)

Lemma wget_loop_ret_zero (e : environment) (dst_addr : Z) (uri : cstring)
    (m : gmap Z ascii) (ret : Z) (st : state) :
  wget_loop e dst_addr uri m = Some (ret, st) →
  (ret = 0%Z ↔ ctx_done (ctx st) = SUCCESS).
Proof.
  intros H.
  apply wget_loop_inv in H
    as [(-> & _ & ->)|(r & _ & [(-> & _ & ->)|[(-> & _ & _ & ->)|H]])];
    try (split; intros; done).
  destruct H as (st1 & _ & _ & _ & -> & ->).
  change (ctx (emit ?ev ?s)) with (ctx s).
  destruct (ctx_done (ctx st1)); split; intros; done.
Qed.

(** The values [do_wget] returns.  CMD_RET_SUCCESS comes only with a
    transfer whose status is SUCCESS.  CMD_RET_USAGE comes only before
    anything is done, for fewer than 2 or more than 3 words, or for 2 words
    of which the second is wholly a number.  Everything else, a URL that
    cannot be normalized or parsed included, is CMD_RET_FAILURE. *)
Theorem do_wget_return_values (hextoul : cstring → Z * nat)
    (image_load_addr : Z) (env : gmap string cstring) (e : environment)
    (m : gmap Z ascii) (nurl : list ascii) (argv : list cstring)
    (rc : Z) (ost : option state) :
  do_wget hextoul image_load_addr env e m nurl argv = Some (rc, ost) →
  (rc = CMD_RET_SUCCESS
   ∧ ∃ st, ost = Some st ∧ ctx_done (ctx st) = SUCCESS)
  ∨ (rc = CMD_RET_FAILURE
     ∧ (ost = None ∨ ∃ st, ost = Some st ∧ ctx_done (ctx st) ≠ SUCCESS))
  ∨ (rc = CMD_RET_USAGE ∧ ost = None
     ∧ (length argv < 2 ∨ 3 < length argv
        ∨ (length argv = 2
           ∧ (hextoul (nth 1 argv [])).2 = strlen (nth 1 argv [])))).
Proof.
  unfold do_wget. intros H.
  case_bool_decide as Hargc.
  { injection H as <- <-. right. right. split; [done|]. split; [done|].
    destruct Hargc; [by left|right; by left]. }
  destruct (hextoul (nth 1 argv [])) as [dst consumed] eqn:Hhex.
  assert (Hrun : ∀ dst_addr url,
    (let '(rc0, buf) := parse_legacy_arg env url nurl NURL_SIZE in
     if negb (rc0 =? 0)%Z then Some (CMD_RET_FAILURE, None)
     else match wget_with_dns e dst_addr (c_str buf) m with
          | None => None
          | Some (rc1, st) =>
              if negb (rc1 =? 0)%Z then Some (CMD_RET_FAILURE, Some st)
              else Some (CMD_RET_SUCCESS, Some st)
          end) = Some (rc, ost) →
    (rc = CMD_RET_SUCCESS
     ∧ ∃ st, ost = Some st ∧ ctx_done (ctx st) = SUCCESS)
    ∨ (rc = CMD_RET_FAILURE
       ∧ (ost = None ∨ ∃ st, ost = Some st ∧ ctx_done (ctx st) ≠ SUCCESS))).
  { intros dst_addr url Hrun.
    destruct (parse_legacy_arg env url nurl NURL_SIZE) as [rc0 buf].
    destruct (negb (rc0 =? 0)%Z).
    { injection Hrun as <- <-. right. split; [done|by left]. }
    unfold wget_with_dns in Hrun.
    destruct (wget_loop e dst_addr (c_str buf) m) as [[rc1 st]|] eqn:Hloop;
      [|discriminate].
    apply wget_loop_ret_zero in Hloop.
    destruct (Z.eqb_spec rc1 0) as [Hz|Hz]; cbn [negb] in Hrun;
      injection Hrun as <- <-.
    - left. split; [done|]. exists st. split; [done|]. by apply Hloop.
    - right. split; [done|]. right. exists st. split; [done|].
      intros Hs. by apply Hz, Hloop. }
  case_bool_decide as Hnum.
  - case_bool_decide as Hfew.
    + injection H as <- <-. right. right. split; [done|]. split; [done|].
      right. right. split; [lia|done].
    + destruct (Hrun _ _ H) as [?|?]; [by left|right; by left].
  - destruct (Hrun _ _ H) as [?|?]; [by left|right; by left].
Qed.

(** The command with the single word "1000", which is wholly a number. *)
Lemma do_wget_return_values_witness :
  do_wget (λ s, (4096%Z, length s)) 0 ∅ (Environment true 0 []) ∅
    (replicate 1024 NUL) [cstr "wget"; cstr "1000"]
  = Some (CMD_RET_USAGE, None)
  ∧ ((CMD_RET_USAGE = CMD_RET_SUCCESS
      ∧ ∃ st, None = Some st ∧ ctx_done (ctx st) = SUCCESS)
     ∨ (CMD_RET_USAGE = CMD_RET_FAILURE
        ∧ (@None state = None
           ∨ ∃ st, None = Some st ∧ ctx_done (ctx st) ≠ SUCCESS))
     ∨ (CMD_RET_USAGE = CMD_RET_USAGE ∧ @None state = None
        ∧ (length [cstr "wget"; cstr "1000"] < 2
           ∨ 3 < length [cstr "wget"; cstr "1000"]
           ∨ (length [cstr "wget"; cstr "1000"] = 2
              ∧ (4096%Z, length (nth 1 [cstr "wget"; cstr "1000"] [])).2
                = strlen (nth 1 [cstr "wget"; cstr "1000"] []))))).
Proof.
  assert (H : do_wget (λ s, (4096%Z, length s)) 0 ∅ (Environment true 0 []) ∅
                (replicate 1024 NUL) [cstr "wget"; cstr "1000"]
              = Some (CMD_RET_USAGE, None)) by (vm_compute; reflexivity).
  split; [exact H|].
  exact (do_wget_return_values (λ s, (4096%Z, length s)) 0 ∅
           (Environment true 0 []) ∅ (replicate 1024 NUL)
           [cstr "wget"; cstr "1000"] CMD_RET_USAGE None H).
Defined.

(** The command on the legacy syntax.  With an argument "host:path", or a
    path and the host that the environment gives, under the conditions of
    the normalizer and the parser, and with either an address word that is
    wholly a number or no address word and an argument that is not wholly
    a number: [do_wget] runs [wget_loop] on "http://" host "/" path at the
    address parsed, or at [image_load_addr], and turns its 0 into
    CMD_RET_SUCCESS and every other value into CMD_RET_FAILURE; and when
    the interface is created, the one request made is for that host, port
    80 and the path "/" path. *)
Theorem do_wget_legacy (hextoul : cstring → Z * nat) (image_load_addr : Z)
    (env : gmap string cstring) (e : environment) (m : gmap Z ascii)
    (nurl : list ascii) (argv : list cstring) (host_ path_ arg : cstring)
    (dst_addr : Z) :
  length nurl = NURL_SIZE →
  NUL ∉ host_ → NUL ∉ path_ →
  ":"%char ∉ host_ → "/"%char ∉ host_ → ":"%char ∉ path_ →
  length host_ < SERVER_NAME_SIZE →
  7 + length host_ + 1 + length path_ < NURL_SIZE →
  starts_with (cstr "http") arg = false →
  arg = host_ ++ ":"%char :: path_
  ∨ (arg = path_ ∧ fallback_host env = Some host_) →
  (∃ cmd addr, argv = [cmd; addr; arg]
               ∧ hextoul addr = (dst_addr, strlen addr))
  ∨ (∃ cmd, argv = [cmd; arg] ∧ (hextoul arg).2 ≠ strlen arg
            ∧ dst_addr = image_load_addr) →
  let url := cstr "http://" ++ host_ ++ "/"%char :: path_ in
  do_wget hextoul image_load_addr env e m nurl argv
  = match wget_loop e dst_addr url m with
    | None => None
    | Some (rc, st) =>
        Some (if (rc =? 0)%Z then CMD_RET_SUCCESS else CMD_RET_FAILURE,
              Some st)
    end
  ∧ (∀ rc st, wget_loop e dst_addr url m = Some (rc, st) →
       netif_created e = true →
       ∃ mid, trace st =
                Net_lwip_new_netif
                :: Httpc_get_file_dns host_ HTTP_PORT_DEFAULT
                     ("/"%char :: path_)
                :: mid ++ [Net_lwip_remove_netif]
              ∧ Forall (λ ev, is_setup ev = false) mid).
Proof.
  intros Hnurl Hnh Hnp Hch Hsh Hcp Hlen Hfit Hhttp Harg Hargv url.
  assert (Hn : normalizes_to env arg nurl NURL_SIZE url).
  { destruct Harg as [->|[-> Hv]].
    - apply parse_legacy_arg_colon; try done. lia.
    - apply parse_legacy_arg_fallback_host; try done. lia. }
  destruct Hn as [Hok _].
  destruct Hok as (buf & Hbuf & Hstr & _).
  { unfold url. rewrite !length_app. simpl. lia. }
  destruct (parse_url_default_port host_ path_ Hch Hsh Hcp Hlen)
    as [Hparse Hpath]. fold url in Hparse, Hpath.
  split.
  - assert (Hchoice :
      do_wget hextoul image_load_addr env e m nurl argv
      = let '(rc, nurl) := parse_legacy_arg env arg nurl NURL_SIZE in
        if negb (rc =? 0)%Z then Some (CMD_RET_FAILURE, None)
        else match wget_with_dns e dst_addr (c_str nurl) m with
             | None => None
             | Some (rc, st) =>
                 if negb (rc =? 0)%Z then Some (CMD_RET_FAILURE, Some st)
                 else Some (CMD_RET_SUCCESS, Some st)
             end).
    { unfold do_wget.
      destruct Hargv as [(cmd & addr & -> & Hhex)|(cmd & -> & Hhex & ->)].
      - cbn [length nth]. rewrite bool_decide_false by lia.
        rewrite Hhex. rewrite bool_decide_true by done.
        by rewrite bool_decide_false by lia.
      - cbn [length nth]. rewrite bool_decide_false by lia.
        destruct (hextoul arg) as [v consumed]. cbn [snd] in Hhex.
        by rewrite bool_decide_false by done. }
    rewrite Hchoice, Hbuf. cbn [negb Z.eqb]. rewrite Hstr.
    unfold wget_with_dns.
    destruct (wget_loop e dst_addr url m) as [[rc st]|]; [|done].
    by destruct (rc =? 0)%Z.
  - intros rc st Hrun He.
    destruct (wget_loop_created_trace e dst_addr url m _ rc st Hparse He Hrun)
      as (mid & Hmid & Hall).
    exists mid. split; [|done]. rewrite Hmid. unfold path_string.
    cbn [host port path]. by rewrite Hpath.
Qed.

(** "wget 1000 host:path/to/file", with 1000 read as the address 4096. *)
Lemma do_wget_legacy_witness :
  let hextoul := λ s : cstring,
    if bool_decide (s = cstr "1000") then (4096%Z, 4) else (0%Z, 0) in
  let e := Environment true 0 [Poll [] [] true] in
  do_wget hextoul 0 ∅ e ∅ (replicate 1024 NUL)
    [cstr "wget"; cstr "1000"; cstr "host:path/to/file"]
  = match wget_loop e 4096 (cstr "http://host/path/to/file") ∅ with
    | None => None
    | Some (rc, st) =>
        Some (if (rc =? 0)%Z then CMD_RET_SUCCESS else CMD_RET_FAILURE,
              Some st)
    end.
Proof.
  intros hextoul e.
  refine (proj1 (do_wget_legacy hextoul 0 ∅ e ∅ (replicate 1024 NUL)
                   [cstr "wget"; cstr "1000"; cstr "host:path/to/file"]
                   (cstr "host") (cstr "path/to/file")
                   (cstr "host:path/to/file") 4096
                   _ _ _ _ _ _ _ _ eq_refl _ _)).
  - apply length_replicate.
  - apply no_nul_check. reflexivity.
  - apply no_nul_check. reflexivity.
  - apply strchr_None. reflexivity.
  - apply strchr_None. reflexivity.
  - apply strchr_None. reflexivity.
  - unfold SERVER_NAME_SIZE. simpl. lia.
  - unfold NURL_SIZE. simpl. lia.
  - left. reflexivity.
  - left. exists (cstr "wget"), (cstr "1000"). split; reflexivity.
Defined.

(** ** The progress marks *)

Lemma marks_app (a b : list event) : marks (a ++ b) = (marks a + marks b)%Z.
Proof. unfold marks. rewrite List.filter_app, length_app. lia. Qed.

(** One buffer: what is unmarked after it is at most the step, whatever
    came before; and without wrap-around, each mark it prints accounts for
    more than the step. *)
Lemma recv_buf_progress (st : state) (payload : list ascii) :
  let st' := recv_buf st payload in
  (wrap_ulong (unmarked st') ≤ PROGRESS_PRINT_STEP_BYTES)%Z
  ∧ ((0 ≤ unmarked st)%Z →
     (0 ≤ ctx_prevsize (ctx st))%Z →
     (ctx_size (ctx st) + pbuf_len payload < 2 ^ BITS_PER_LONG)%Z →
     (0 ≤ unmarked st')%Z ∧ (0 ≤ ctx_prevsize (ctx st'))%Z
     ∧ ctx_size (ctx st') = (ctx_size (ctx st) + pbuf_len payload)%Z
     ∧ ((PROGRESS_PRINT_STEP_BYTES + 1) * (marks (trace st') - marks (trace st))
        + unmarked st'
        ≤ unmarked st + pbuf_len payload)%Z).
Proof.
  unfold recv_buf, unmarked.
  destruct (Z.ltb_spec PROGRESS_PRINT_STEP_BYTES
              (wrap_ulong (wrap_ulong (ctx_size (ctx st) + pbuf_len payload)
                           - ctx_prevsize (ctx st)))) as [Hm|Hm];
    cbn [ctx trace ctx_size ctx_prevsize]; split.
  - rewrite Z.sub_diag. by vm_compute.
  - intros Hu Hp Hs.
    assert (Hpl : (0 ≤ pbuf_len payload)%Z) by (unfold pbuf_len; lia).
    rewrite (wrap_ulong_small (ctx_size (ctx st) + pbuf_len payload)) in *
      by (unfold is_ulong; lia).
    rewrite wrap_ulong_small in Hm by (unfold is_ulong; lia).
    unfold PROGRESS_PRINT_STEP_BYTES in *.
    rewrite marks_app. change (marks [Print_hash]) with 1%Z. lia.
  - done.
  - intros Hu Hp Hs.
    assert (Hpl : (0 ≤ pbuf_len payload)%Z) by (unfold pbuf_len; lia).
    rewrite (wrap_ulong_small (ctx_size (ctx st) + pbuf_len payload)) in *
      by (unfold is_ulong; lia).
    rewrite wrap_ulong_small in Hm by (unfold is_ulong; lia).
    unfold PROGRESS_PRINT_STEP_BYTES in *.
    lia.
Qed.

Lemma fold_recv_buf_progress (p : pbuf) (st : state) :
  (0 ≤ unmarked st)%Z → (0 ≤ ctx_prevsize (ctx st))%Z →
  (ctx_size (ctx st) + Z.of_nat (length (concat p)) < 2 ^ BITS_PER_LONG)%Z →
  let st' := fold_left recv_buf p st in
  (0 ≤ unmarked st')%Z ∧ (0 ≤ ctx_prevsize (ctx st'))%Z
  ∧ ((PROGRESS_PRINT_STEP_BYTES + 1) * (marks (trace st') - marks (trace st))
     + unmarked st'
     ≤ unmarked st + Z.of_nat (length (concat p)))%Z.
Proof.
  revert st. induction p as [|payload p IH]; intros st Hu Hp Hs.
  - simpl. lia.
  - cbn [concat] in Hs. rewrite length_app, Nat2Z.inj_add in Hs.
    destruct (recv_buf_progress st payload) as [_ H1].
    destruct H1 as (Hu1 & Hp1 & Hs1 & Hm1); [done|done|unfold pbuf_len; lia|].
    specialize (IH (recv_buf st payload) Hu1 Hp1).
    destruct IH as (Hu2 & Hp2 & Hm2); [rewrite Hs1; unfold pbuf_len; lia|].
    cbn [fold_left concat]. rewrite length_app, Nat2Z.inj_add.
    unfold pbuf_len in Hm1. split; [done|]. split; [done|]. lia.
Qed.

Lemma fold_recv_buf_unmarked (p : pbuf) (st : state) :
  p ≠ [] →
  (wrap_ulong (unmarked (fold_left recv_buf p st))
   ≤ PROGRESS_PRINT_STEP_BYTES)%Z.
Proof.
  intros Hp. destruct (exists_last Hp) as (xs & x & ->).
  rewrite fold_left_app. simpl. apply recv_buf_progress.
Qed.

(** The progress marks of a call of [httpc_recv_cb].  After a chain that is
    not NULL, the bytes received since the last mark, as the code counts
    them, are at most 100 KiB.  And when the byte counter does not wrap
    and the counter of the last mark is not beyond it, that stays so, and
    each mark the call prints accounts for more than 100 KiB of the bytes
    that were unmarked before it or came with it. *)
Theorem httpc_recv_cb_progress (timer : Z) (p : pbuf) (st : state) :
  let st' := (httpc_recv_cb timer p st).2 in
  (p ≠ [] → (wrap_ulong (unmarked st') ≤ PROGRESS_PRINT_STEP_BYTES)%Z)
  ∧ ((0 ≤ ctx_prevsize (ctx st) ≤ ctx_size (ctx st))%Z →
     (ctx_size (ctx st) + Z.of_nat (length (concat p)) < 2 ^ BITS_PER_LONG)%Z →
     (0 ≤ ctx_prevsize (ctx st') ≤ ctx_size (ctx st'))%Z
     ∧ ((PROGRESS_PRINT_STEP_BYTES + 1)
        * (marks (trace st') - marks (trace st))
        + unmarked st'
        ≤ unmarked st + Z.of_nat (length (concat p)))%Z).
Proof.
  destruct p as [|payload p].
  { cbn. split; [done|]. intros H _. unfold unmarked. lia. }
  unfold httpc_recv_cb. cbn [snd].
  set (st0 := if (_ =? 0)%Z then _ else st).
  assert (H0 : unmarked st0 = unmarked st
               ∧ ctx_prevsize (ctx st0) = ctx_prevsize (ctx st)
               ∧ ctx_size (ctx st0) = ctx_size (ctx st)
               ∧ trace st0 = trace st).
  { unfold st0. by destruct (_ =? 0)%Z. }
  destruct H0 as (Hu0 & Hp0 & Hs0 & Ht0).
  set (st1 := fold_left recv_buf (payload :: p) st0).
  assert (Hst' : ∀ a b, unmarked (emit a (emit b st1)) = unmarked st1
                 ∧ ctx_prevsize (ctx (emit a (emit b st1)))
                   = ctx_prevsize (ctx st1)
                 ∧ ctx_size (ctx (emit a (emit b st1))) = ctx_size (ctx st1))
    by done.
  destruct (Hst' Pbuf_free (Altcp_recved (tot_len (payload :: p))))
    as (-> & Hp' & Hs').
  cbv zeta. rewrite Hp', Hs'. split.
  - intros _. by apply fold_recv_buf_unmarked.
  - intros Hps Hsz.
    destruct (fold_recv_buf_progress (payload :: p) st0)
      as (Hu1 & Hp1 & Hm1).
    + rewrite Hu0. unfold unmarked. lia.
    + rewrite Hp0. lia.
    + by rewrite Hs0.
    + fold st1 in Hu1, Hp1, Hm1. rewrite Ht0, Hu0 in Hm1.
      split; [unfold unmarked in Hu1; lia|].
      unfold emit. cbn [trace]. rewrite !marks_app.
      change (marks [Altcp_recved (tot_len (payload :: p))]) with 0%Z.
      change (marks [Pbuf_free]) with 0%Z. lia.
Qed.

(** A buffer of 5 bytes after 5 unmarked ones. *)
Lemma httpc_recv_cb_progress_witness :
  let st := State (Wget_ctx (cstr "/f") 4101 4096 5 0 3 NOT_DONE) ∅ [] in
  let st' := (httpc_recv_cb 7 [cstr "hello"] st).2 in
  (wrap_ulong (unmarked st') ≤ PROGRESS_PRINT_STEP_BYTES)%Z
  ∧ (0 ≤ ctx_prevsize (ctx st') ≤ ctx_size (ctx st'))%Z.
Proof.
  intros st st'.
  destruct (httpc_recv_cb_progress 7 [cstr "hello"] st) as [H1 H2].
  split; [by apply H1|].
  apply H2.
  - cbn [st ctx ctx_prevsize ctx_size]. lia.
  - cbn [st ctx ctx_size]. simpl length. unfold BITS_PER_LONG. lia.
Defined.

(** ** What the finalizer writes, and how the loop ends *)

(** Whatever its arguments, the finalizer leaves the memory and every
    field of the context but the status as they are, and the status it
    leaves is FAILURE or SUCCESS, never NOT_DONE. *)
Theorem httpc_result_cb_writes_status_only (o : result_oracle)
    (httpc_result rx_content_len srv_res : Z) (st : state) :
  let st' := httpc_result_cb o httpc_result rx_content_len srv_res st in
  let c := ctx st in
  mem st' = mem st
  ∧ ctx st' = Wget_ctx (ctx_path c) (ctx_daddr c) (ctx_saved_daddr c)
                (ctx_size c) (ctx_prevsize c) (ctx_start_time c)
                (ctx_done (ctx st'))
  ∧ ctx_done (ctx st') ≠ NOT_DONE.
Proof.
  unfold httpc_result_cb.
  repeat (match goal with |- context [if ?b then _ else _] => destruct b end);
    done.
Qed.

Lemma poll_loop_pending (ps : list poll) (st : state) :
  ctx_done (ctx st) = NOT_DONE →
  Forall (λ p, ctrlc p = false ∧ finalizes p = false) ps →
  poll_loop ps st = None.
Proof.
  intros Hst Hps. revert st Hst.
  induction Hps as [|p ps [Hc Hf] _ IH]; intros st Hst.
  - simpl. by rewrite Hst.
  - rewrite poll_loop_unfold, Hc by done. apply IH.
    by rewrite after_turn_pending.
Qed.

(** The driver has no timeout of its own: once the request is accepted,
    as long as no turn sees the interrupt or a call of the finalizer, the
    loop goes on, whatever is received. *)
Theorem wget_loop_no_timeout (e : environment) (dst_addr : Z) (uri : cstring)
    (m : gmap Z ascii) (r : parsed_url) :
  parse_url uri = Ok r → netif_created e = true →
  httpc_get_file_dns_rc e = 0%Z →
  Forall (λ p, ctrlc p = false ∧ finalizes p = false) (polls e) →
  wget_loop e dst_addr uri m = None.
Proof.
  intros Hr He Hrc Hps. rewrite (wget_loop_unfold e dst_addr uri m r Hr He).
  rewrite Hrc. cbn [Z.eqb negb].
  by rewrite poll_loop_pending.
Qed.

(** Three turns that receive data and see neither interrupt nor finalizer. *)
Lemma wget_loop_no_timeout_witness :
  wget_loop (Environment true 0
               [Poll [Recv_cb 5 [cstr "ab"]] [] false;
                Poll [] [Recv_cb 6 [cstr "c"]] false;
                Poll [] [] false])
    4096 (cstr "http://h/x") ∅ = None.
Proof.
  apply (wget_loop_no_timeout _ 4096 (cstr "http://h/x") ∅
           (Parsed (cstr "h") 80 8)).
  - reflexivity.
  - reflexivity.
  - reflexivity.
  - repeat constructor.
Defined.
